(** * A verification development for the TypeScript project manager

    The program is a browser form (title, description, people) whose
    submissions are stored by a singleton [ProjectState] and rendered by two
    [ProjectList] views.  The embedding below follows the single-file version
    of the application (classes [Project], [State], [ProjectState],
    [Component], [ProjectItem], [ProjectList], [ProjectInput] and the function
    [validate]); the older [src/app.ts], whose [ProjectList] is different, is
    embedded in [Module Legacy].

    The JavaScript runtime is not part of the repository.  Its pieces that
    the program calls are modelled after ECMAScript:
    - strings are sequences of UTF-16 code units,
    - numbers are the IEEE binary64 values, a finite one carried by the
      rational it denotes (the two zeros are one value: no operation of the
      program tells them apart),
    - [String.prototype.trim], unary [+] on strings, [Number.prototype.toString],
    - arrays and objects live in a store and are passed by reference. *)

From Stdlib Require Import ZArith NArith QArith Qround Bool String Ascii.
From stdpp Require Import base tactics option list.

Local Open Scope Z_scope.

(** ** Strings *)

Module JsString.

(** A string is its sequence of UTF-16 code units. *)
Definition t := list N.

(** A literal of the source text (all of them are ASCII). *)
Definition lit (s : string) : t := map N_of_ascii (list_ascii_of_string s).

Definition length (s : t) : nat := List.length s.

(** WhiteSpace and LineTerminator code points of ECMAScript: what [trim]
    strips and what the numeric-string grammar allows around a literal. *)
Definition isWhiteSpace (c : N) : bool :=
  ((9 <=? c) && (c <=? 13) (* TAB LF VT FF CR *)
   || (c =? 32) || (c =? 160) || (c =? 5760)
   || (8192 <=? c) && (c <=? 8202)
   || (c =? 8232) || (c =? 8233) || (c =? 8239) || (c =? 8287)
   || (c =? 12288) || (c =? 65279))%N.

Fixpoint trimStart (s : t) : t :=
  match s with
  | c :: s' => if isWhiteSpace c then trimStart s' else s
  | [] => []
  end.

Definition trimEnd (s : t) : t := rev (trimStart (rev s)).

Definition trim (s : t) : t := trimEnd (trimStart s).

Definition eqb (a b : t) : bool := bool_decide (a = b).

End JsString.

Abbreviation jsstring := JsString.t.
Notation "'js' s" := (JsString.lit s%string) (at level 1, s at level 0, only parsing).

(** ** Numbers *)

Module Number.

Inductive t : Type :=
| NaN
| Inf (negative : bool)
| Fin (q : Q).

Definition of_Z (z : Z) : t := Fin (inject_Z z).
Definition of_nat (n : nat) : t := of_Z (Z.of_nat n).

(** [x <= y], false as soon as one side is NaN. *)
Definition le (x y : t) : bool :=
  match x, y with
  | NaN, _ | _, NaN => false
  | Inf true, _ => true
  | _, Inf false => true
  | Inf false, _ => false
  | _, Inf true => false
  | Fin a, Fin b => Qle_bool a b
  end.

(** [x >= y] *)
Definition ge (x y : t) : bool := le y x.

(** [x === y] on two numbers. *)
Definition strict_eq (x y : t) : bool :=
  match x, y with
  | Fin a, Fin b => Qeq_bool a b
  | Inf a, Inf b => Bool.eqb a b
  | _, _ => false
  end.

(** *** Rounding a real to binary64 (round to nearest, ties to even) *)

(** [2^e <= n/d] for positive [n], [d]. *)
Definition pow2_le (e n d : Z) : bool :=
  if 0 <=? e then d * 2 ^ e <=? n else d <=? n * 2 ^ (- e).

(** The rounded magnitude of [n/d] with [0 < n], [0 < d]: [None] when it
    overflows the finite range. *)
Definition round_pos (n d : Z) : option Q :=
  let e0 := Z.log2 n - Z.log2 d in
  let e := if pow2_le e0 n d then e0 else e0 - 1 in (* floor (log2 (n/d)) *)
  let u := Z.max (e - 52) (-1074) in              (* exponent of the last place *)
  let num := if u <? 0 then n * 2 ^ (- u) else n in
  let den := if u <? 0 then d else d * 2 ^ u in
  let m0 := num / den in
  let r := num mod den in
  let m := if 2 * r <? den then m0
           else if den <? 2 * r then m0 + 1
           else if Z.even m0 then m0 else m0 + 1 in
  (* m * 2^u, at most 2^1024 *)
  if 2 ^ 1024 <=? (if u <? 0 then 0 else m * 2 ^ u) then None
  else Some (Qred (if u <? 0 then m # Z.to_pos (2 ^ (- u)) else inject_Z (m * 2 ^ u))).

(** The number denoted by a real: the rational [q]. *)
Definition round (q : Q) : t :=
  match Qnum q with
  | 0 => Fin 0
  | Z.pos n =>
      match round_pos (Z.pos n) (Z.pos (Qden q)) with
      | Some r => Fin r | None => Inf false end
  | Z.neg n =>
      match round_pos (Z.pos n) (Z.pos (Qden q)) with
      | Some r => Fin (Qopp r) | None => Inf true end
  end.

(** *** Unary plus on a string: StringToNumber *)

Definition isDigit (c : N) : bool := ((48 <=? c) && (c <=? 57))%N.

(** The longest prefix of decimal digits, and what follows it. *)
Fixpoint span_digits (s : jsstring) : jsstring * jsstring :=
  match s with
  | c :: s' =>
      if isDigit c then let '(ds, r) := span_digits s' in (c :: ds, r)
      else ([], s)
  | [] => ([], [])
  end.

(** The value of a digit of radix up to 16, if the code unit is one. *)
Definition digit_value (c : N) : option Z :=
  if isDigit c then Some (Z.of_N c - 48)
  else if ((97 <=? c) && (c <=? 102))%N then Some (Z.of_N c - 87)
  else if ((65 <=? c) && (c <=? 70))%N then Some (Z.of_N c - 55)
  else None.

(** The integer written by [s] in the given radix; [None] on an empty
    string or on a code unit that is no digit of that radix. *)
Definition digits_value (radix : Z) (s : jsstring) : option Z :=
  match s with
  | [] => None
  | _ =>
      fold_left (fun acc c =>
                   match acc, digit_value c with
                   | Some a, Some d => if d <? radix then Some (a * radix + d) else None
                   | _, _ => None
                   end) s (Some 0)
  end.

Definition decimal_value (s : jsstring) : Z :=
  default 0 (digits_value 10 s).

(** [m * 10^e] *)
Definition scale10 (m e : Z) : Q :=
  if 0 <=? e then inject_Z (m * 10 ^ e) else m # Z.to_pos (10 ^ (- e)).

(** ExponentPart, optional: the exponent, [None] on a syntax error. *)
Definition parse_exponent (s : jsstring) : option Z :=
  match s with
  | [] => Some 0
  | c :: r =>
      if ((c =? 101) || (c =? 69))%N (* e E *) then
        let '(neg, r) :=
          match r with
          | 43%N :: r' => (false, r')
          | 45%N :: r' => (true, r')
          | _ => (false, r)
          end in
        let '(ds, rest) := span_digits r in
        match ds, rest with
        | _ :: _, [] => Some (if neg then - decimal_value ds else decimal_value ds)
        | _, _ => None
        end
      else None
  end.

(** StrUnsignedDecimalLiteral, but for [Infinity]: the real it writes. *)
Definition parse_unsigned (s : jsstring) : option Q :=
  let '(ip, r1) := span_digits s in
  let '(fp, r2) :=
    match r1 with
    | 46%N :: r => span_digits r
    | _ => ([], r1)
    end in
  match ip ++ fp with
  | [] => None
  | ds =>
      match parse_exponent r2 with
      | Some e => Some (scale10 (decimal_value ds) (e - Z.of_nat (List.length fp)))
      | None => None
      end
  end.

Definition parse_decimal (s : jsstring) : t :=
  let '(neg, body) :=
    match s with
    | 43%N :: r => (false, r)
    | 45%N :: r => (true, r)
    | _ => (false, s)
    end in
  if JsString.eqb body (js "Infinity") then Inf neg
  else match parse_unsigned body with
       | Some q => round (if neg then Qopp q else q)
       | None => NaN
       end.

(** NonDecimalIntegerLiteral: 0x, 0o and 0b literals (no sign). *)
Definition parse_radix (s : jsstring) : option t :=
  match s with
  | 48%N :: c :: r =>
      let radix :=
        if ((c =? 120) || (c =? 88))%N then Some 16
        else if ((c =? 111) || (c =? 79))%N then Some 8
        else if ((c =? 98) || (c =? 66))%N then Some 2
        else None in
      match radix with
      | Some b =>
          Some match digits_value b r with
               | Some v => round (inject_Z v)
               | None => NaN
               end
      | None => None
      end
  | _ => None
  end.

(** [+s] *)
Definition of_string (s : jsstring) : t :=
  match JsString.trim s with
  | [] => Fin 0
  | body =>
      match parse_radix body with
      | Some v => v
      | None => parse_decimal body
      end
  end.

(** *** Number.prototype.toString *)

Fixpoint to_digits (fuel : nat) (n : N) (acc : jsstring) : jsstring :=
  let acc' := (48 + n mod 10)%N :: acc in
  match fuel with
  | O => acc'
  | S f => if (n / 10 =? 0)%N then acc' else to_digits f (n / 10)%N acc'
  end.

(** The decimal digits of a natural number. *)
Definition decimal (n : N) : jsstring := to_digits (N.size_nat n) n [].

(** [floor (x * 10^e)] for [x = p/q], [0 < q]. *)
Definition floor_scaled (p q e : Z) : Z :=
  if 0 <=? e then (p * 10 ^ e) / q else p / (q * 10 ^ (- e)).

(** [n] with [10^(n-1) <= p/q < 10^n], for positive [p], [q]. *)
Definition magnitude (p q : Z) : Z :=
  let est := Z.of_nat (List.length (decimal (Z.to_N p)))
             - Z.of_nat (List.length (decimal (Z.to_N q))) in
  if 1 <=? floor_scaled p q (- est) then est + 1 else est.

(** The candidates with [k] digits next to [x = p/q]: the decimal just
    below (or equal) and the one just above, as [(s, n)] standing for
    [s * 10^(n-k)]. *)
Definition candidates (p q k : Z) : (Z * Z) * (Z * Z) :=
  let n := magnitude p q in
  let lo := floor_scaled p q (k - n) in
  let hi := if lo + 1 =? 10 ^ k then (10 ^ (k - 1), n + 1) else (lo + 1, n) in
  ((lo, n), hi).

Definition denotes (x : Q) (k : Z) (c : Z * Z) : bool :=
  strict_eq (round (scale10 (fst c) (snd c - k))) (Fin x).

(** Of two candidates that both denote [x], the nearer one. *)
Definition nearer (x : Q) (k : Z) (lo hi : Z * Z) : Z * Z :=
  let dl := Qminus x (scale10 (fst lo) (snd lo - k)) in
  let dh := Qminus (scale10 (fst hi) (snd hi - k)) x in
  if Qle_bool dl dh then lo else hi.

(** The integers [n], [k] and [s] of Number::toString for a positive
    finite [x]: [s] has [k] digits, [s * 10^(n-k)] denotes [x], and [k] is
    the smallest possible (17 digits always suffice for binary64). *)
Fixpoint shortest (fuel : nat) (k : Z) (x : Q) : Z * Z * Z :=
  let '(lo, hi) := candidates (Qnum x) (Z.pos (Qden x)) k in
  let pick c := (snd c, k, fst c) in
  match fuel with
  | O => pick (nearer x k lo hi)
  | S f =>
      match denotes x k lo, denotes x k hi with
      | true, true => pick (nearer x k lo hi)
      | true, false => pick lo
      | false, true => pick hi
      | false, false => shortest f (k + 1) x
      end
  end.

Definition zeros (n : Z) : jsstring := repeat 48%N (Z.to_nat n).

(** Steps 6 to 10 of Number::toString, from [n] and the digits of [s]. *)
Definition format (n : Z) (ds : jsstring) : jsstring :=
  let k := Z.of_nat (List.length ds) in
  if (-5 <=? n) && (n <=? 21) then
    if k <=? n then ds ++ zeros (n - k)
    else if 0 <? n then take (Z.to_nat n) ds ++ js "." ++ drop (Z.to_nat n) ds
    else js "0." ++ zeros (- n) ++ ds
  else
    let e := n - 1 in
    let exponent :=
      js "e" ++ (if e <? 0 then js "-" else js "+") ++ decimal (Z.to_N (Z.abs e)) in
    match ds with
    | [d] => [d] ++ exponent
    | d :: rest => [d] ++ js "." ++ rest ++ exponent
    | [] => exponent
    end.

Definition to_string_pos (x : Q) : jsstring :=
  let '(n, _, s) := shortest 16 1 x in
  format n (decimal (Z.to_N s)).

(** [x.toString()] *)
Definition to_string (x : t) : jsstring :=
  match x with
  | NaN => js "NaN"
  | Inf false => js "Infinity"
  | Inf true => js "-Infinity"
  | Fin q =>
      match Qnum q with
      | 0 => js "0"
      | Z.pos _ => to_string_pos q
      | Z.neg _ => js "-" ++ to_string_pos (Qopp q)
      end
  end.

End Number.

Abbreviation number := Number.t.

(** ** The runtime: completions, the store, the page *)

(** A call either returns or throws; what it did to the state before it
    threw stays done. *)
Inductive completion (A : Type) : Type :=
| Normal (a : A)
| Throw.
Arguments Normal {A} a.
Arguments Throw {A}.

Definition M (S A : Type) : Type := S -> completion A * S.

Definition ret {S A} (a : A) : M S A := fun s => (Normal a, s).

Definition bind {S A B} (m : M S A) (f : A -> M S B) : M S B :=
  fun s => match m s with
           | (Normal a, s') => f a s'
           | (Throw, s') => (Throw, s')
           end.

Definition throw {S A} : M S A := fun s => (Throw, s).
Definition get {S} : M S S := fun s => (Normal s, s).
Definition modify {S} (f : S -> S) : M S unit := fun s => (Normal tt, f s).

Declare Scope js_scope.
Delimit Scope js_scope with run.
Notation "x <- m ;; k" := (bind m (fun x => k))
  (at level 100, m at next level, right associativity) : js_scope.
Notation "m ;; k" := (bind m (fun _ => k))
  (at level 100, right associativity) : js_scope.
Local Open Scope js_scope.

(** [for (const x of xs) body(x)], over a list that the body leaves alone. *)
Fixpoint for_of {S A} (xs : list A) (body : A -> M S unit) : M S unit :=
  match xs with
  | [] => ret tt
  | x :: xs' => body x ;; for_of xs' body
  end.

Inductive ProjectStatus : Type := Active | Finished.

Module Project.
Record t : Type := new {
  id : jsstring;
  title : jsstring;
  description : jsstring;
  people : number;
  status : ProjectStatus
}.
End Project.

(** A reference to an object of the store. *)
Definition ref := nat.

Inductive object : Type :=
| Array (items : list ref)          (* a Project[] *)
| Instance (project : Project.t).   (* a Project *)

(** The list items the views create. *)
Inductive LiElement : Type :=
| ItemLi (id h2 h3 p : jsstring)    (* a clone of the single-project template *)
| TextLi (textContent : jsstring).  (* document.createElement('li') *)

Record UlElement : Type := {
  ul_id : jsstring;
  children : list LiElement
}.

(** The fields of a ProjectList: its type, its array of projects, and the
    <ul> of its rendered section (an index in the document). *)
Inductive ListType : Type := active | finished.

Record ProjectListFields : Type := {
  type : ListType;
  assignedProjects : ref;
  ul : nat
}.

(** The values of the three inputs of the form. *)
Record ProjectInputFields : Type := {
  titleInputEl : jsstring;
  descriptionInputEl : jsstring;
  peopleInputEl : jsstring
}.

(** What the program can reach and change, but for the ProjectState object
    itself (below): the store of arrays and projects, the <ul> elements of
    the page in document order, the views, the form, the alerts shown so
    far, and the results that Math.random has in stock with the number of
    them already drawn. *)
Record World : Type := {
  store : list object;
  document : list UlElement;
  lists : list ProjectListFields;
  form : ProjectInputFields;
  alerts : list jsstring;
  random : nat -> number;
  drawn : nat
}.

Definition set_store (f : list object -> list object) (w : World) : World :=
  {| store := f (store w); document := document w; lists := lists w;
     form := form w; alerts := alerts w; random := random w; drawn := drawn w |}.

Definition set_document (f : list UlElement -> list UlElement) (w : World) : World :=
  {| store := store w; document := f (document w); lists := lists w;
     form := form w; alerts := alerts w; random := random w; drawn := drawn w |}.

Definition set_lists (f : list ProjectListFields -> list ProjectListFields)
    (w : World) : World :=
  {| store := store w; document := document w; lists := f (lists w);
     form := form w; alerts := alerts w; random := random w; drawn := drawn w |}.

Definition set_form (f : ProjectInputFields -> ProjectInputFields) (w : World) : World :=
  {| store := store w; document := document w; lists := lists w;
     form := f (form w); alerts := alerts w; random := random w; drawn := drawn w |}.

Definition set_alerts (f : list jsstring -> list jsstring) (w : World) : World :=
  {| store := store w; document := document w; lists := lists w;
     form := form w; alerts := f (alerts w); random := random w; drawn := drawn w |}.

Definition set_drawn (f : nat -> nat) (w : World) : World :=
  {| store := store w; document := document w; lists := lists w;
     form := form w; alerts := alerts w; random := random w; drawn := f (drawn w) |}.

(** *** The store *)

(** A new object: the store grows at its end, nothing is ever freed. *)
Definition alloc (o : object) : M World ref :=
  fun w => (Normal (List.length (store w)), set_store (fun st => st ++ [o]) w).

(** The items of the array at [a].  Reading anything else as an array is
    outside what the TypeScript types allow and is taken to throw. *)
Definition items_of (a : ref) : M World (list ref) :=
  fun w => match store w !! a with
           | Some (Array xs) => (Normal xs, w)
           | _ => (Throw, w)
           end.

Definition project_of (r : ref) : M World Project.t :=
  fun w => match store w !! r with
           | Some (Instance p) => (Normal p, w)
           | _ => (Throw, w)
           end.

(** [a.push(x)] *)
Definition Array_push (a x : ref) : M World unit :=
  xs <- items_of a ;;
  modify (set_store (fun st => <[a := Array (xs ++ [x])]> st)).

(** [[...a]] and [a.slice()]: a new array with the same items. *)
Definition Array_spread (a : ref) : M World ref :=
  xs <- items_of a ;;
  alloc (Array xs).

(** [Math.random()] *)
Definition Math_random : M World number :=
  fun w => (Normal (random w (drawn w)), set_drawn S w).

(** [alert(message)] *)
Definition alert (message : jsstring) : M World unit :=
  modify (set_alerts (fun shown => shown ++ [message])).

(** ** State and ProjectState *)

(** [type Listener<T> = (items: T[]) => void], here with [T = Project].
    A listener gets the reference of an array and works on the world; it
    does not call back into the ProjectState that notifies it. *)
Definition Listener : Type := ref -> M World unit.

Module ProjectState.

Record t : Type := {
  listeners : list Listener;
  projects : ref
}.

(** [private constructor() { super(); }], with the two field
    initialisers. *)
Definition constructor : M World t :=
  a <- alloc (Array []) ;;
  ret {| listeners := []; projects := a |}.

(** [State.addListener] *)
Definition addListener (this : t) (listenerFn : Listener) : t :=
  {| listeners := listeners this ++ [listenerFn]; projects := projects this |}.

Definition addProject (this : t) (title description : jsstring)
    (numOfPeople : number) : M World unit :=
  r <- Math_random ;;
  newProject <- alloc (Instance (Project.new (Number.to_string r) title description
                                   numOfPeople Active)) ;;
  Array_push (projects this) newProject ;;
  for_of (listeners this) (fun listenerFn =>
    copy <- Array_spread (projects this) ;;
    listenerFn copy).

(** The class itself: its static [instance] (undefined at first) and
    the ProjectState objects constructed so far; an object is known by
    its index there. *)
Record class : Type := {
  instance : option nat;
  constructed : list t
}.

End ProjectState.

(** The whole state: the class ProjectState and the world. *)
Record Runtime : Type := {
  statics : ProjectState.class;
  world : World
}.

(** A call that works on the world only. *)
Definition in_world {A} (m : M World A) : M Runtime A :=
  fun rt => let '(c, w) := m (world rt) in
            (c, {| statics := statics rt; world := w |}).

Definition getInstance : M Runtime nat :=
  fun rt =>
    match ProjectState.instance (statics rt) with
    | Some this => (Normal this, rt)
    | None =>
        let '(c, w) := ProjectState.constructor (world rt) in
        match c with
        | Normal ps =>
            let objs := ProjectState.constructed (statics rt) in
            (Normal (List.length objs),
             {| statics := {| ProjectState.instance := Some (List.length objs);
                              ProjectState.constructed := objs ++ [ps] |};
                world := w |})
        | Throw => (Throw, {| statics := statics rt; world := w |})
        end
    end.

(** Calls of the methods of ProjectState on a reference [this]. *)
Module Call.

Definition deref (this : nat) : M Runtime ProjectState.t :=
  fun rt => match ProjectState.constructed (statics rt) !! this with
            | Some ps => (Normal ps, rt)
            | None => (Throw, rt)
            end.

Definition addListener (this : nat) (listenerFn : Listener) : M Runtime unit :=
  ps <- deref this ;;
  modify (fun rt =>
    {| statics :=
         {| ProjectState.instance := ProjectState.instance (statics rt);
            ProjectState.constructed :=
              <[this := ProjectState.addListener ps listenerFn]>
                (ProjectState.constructed (statics rt)) |};
       world := world rt |}).

Definition addProject (this : nat) (title description : jsstring)
    (numOfPeople : number) : M Runtime unit :=
  ps <- deref this ;;
  in_world (ProjectState.addProject ps title description numOfPeople).

End Call.

(** ** Validation *)

Inductive value : Type :=
| Str (s : jsstring)
| Num (n : number).

Module Validatable.
Record t : Type := {
  value_ : value;
  required : option bool;
  minLength : option number;
  maxLength : option number;
  min : option number;
  max : option number
}.
End Validatable.

(** [value.toString()] *)
Definition toString (v : value) : jsstring :=
  match v with
  | Str s => s
  | Num n => Number.to_string n
  end.

(** [if (flag)] on an optional boolean: undefined and false do not pass. *)
Definition truthy (flag : option bool) : bool :=
  match flag with
  | Some true => true
  | _ => false
  end.

Definition validate (validatableInput : Validatable.t) : bool :=
  let v := Validatable.value_ validatableInput in
  let isValid := true in
  let isValid :=
    if truthy (Validatable.required validatableInput)
    then isValid && negb (JsString.length (JsString.trim (toString v)) =? 0)%nat
    else isValid in
  let isValid :=
    match Validatable.minLength validatableInput, v with
    | Some bound, Str s => isValid && Number.ge (Number.of_nat (JsString.length s)) bound
    | _, _ => isValid
    end in
  let isValid :=
    match Validatable.maxLength validatableInput, v with
    | Some bound, Str s => isValid && Number.le (Number.of_nat (JsString.length s)) bound
    | _, _ => isValid
    end in
  let isValid :=
    match Validatable.min validatableInput, v with
    | Some bound, Num n => isValid && Number.ge n bound
    | _, _ => isValid
    end in
  let isValid :=
    match Validatable.max validatableInput, v with
    | Some bound, Num n => isValid && Number.le n bound
    | _, _ => isValid
    end in
  isValid.

(** ** The page *)

(** [document.getElementById(id)] among the <ul> elements: the first one in
    document order that has this id, or null. *)
Definition getElementById (elementId : jsstring) (w : World) : option nat :=
  fst <$> list_find (fun u => ul_id u = elementId) (document w).

Definition set_children (el : nat) (f : list LiElement -> list LiElement) : M World unit :=
  modify (set_document (fun doc =>
    match doc !! el with
    | Some u => <[el := {| ul_id := ul_id u; children := f (children u) |}]> doc
    | None => doc
    end)).

Definition set_ul_id (el : nat) (newId : jsstring) : M World unit :=
  modify (set_document (fun doc =>
    match doc !! el with
    | Some u => <[el := {| ul_id := newId; children := children u |}]> doc
    | None => doc
    end)).

Definition typeName (t : ListType) : jsstring :=
  match t with
  | active => js "active"
  | finished => js "finished"
  end.

(** ** Component, at its use by ProjectItem: the template is
    single-project, the host an <ul>, the rendered element an <li>. *)
Module Component.

(** The constructor: the host is looked up, the template is cloned, the
    clone takes [newElementId] if that is not the empty string, and
    [attach] puts it first or last in the host.  The result is the host
    and the place of the new <li> in it.  A host that is missing makes
    [attach] throw. *)
Definition constructor (hostElId : jsstring) (insertAtStart : bool)
    (newElementId : jsstring) : M World (nat * nat) :=
  w <- get ;;
  let renderedEl := ItemLi newElementId [] [] [] in
  match getElementById hostElId w with
  | None => throw
  | Some hostEl =>
      let n := default 0%nat (List.length <$> (children <$> document w !! hostEl)) in
      set_children hostEl (fun lis =>
        if insertAtStart then renderedEl :: lis else lis ++ [renderedEl]) ;;
      ret (hostEl, if insertAtStart then 0%nat else n)
  end.

End Component.

Module ProjectItem.

(** [get persons()] *)
Definition persons (project : Project.t) : jsstring :=
  if Number.strict_eq (Project.people project) (Number.of_Z 1)
  then js "1 person"
  else Number.to_string (Project.people project) ++ js " persons".

(** The text that [renderContent] gives to the h3. *)
Definition h3_text (project : Project.t) : jsstring :=
  persons project ++ js " assigned".

Definition renderContent (hostEl renderedEl : nat) (project : ref) : M World unit :=
  p <- project_of project ;;
  set_children hostEl (fun lis =>
    match lis !! renderedEl with
    | Some (ItemLi i _ _ _) =>
        <[renderedEl := ItemLi i (Project.title p) (h3_text p) (Project.description p)]> lis
    | _ => lis
    end).

Definition constructor (hostId : jsstring) (project : ref) : M World unit :=
  p <- project_of project ;;
  placed <- Component.constructor hostId false (Project.id p) ;;
  (* configure() does nothing *)
  renderContent (fst placed) (snd placed) project.

End ProjectItem.

(** [a.filter(keep)] on an array of projects: a new array. *)
Fixpoint filter_projects (keep : Project.t -> bool) (xs : list ref) : M World (list ref) :=
  match xs with
  | [] => ret []
  | x :: xs' =>
      p <- project_of x ;;
      rest <- filter_projects keep xs' ;;
      ret (if keep p then x :: rest else rest)
  end.

Definition Array_filter (a : ref) (keep : Project.t -> bool) : M World ref :=
  xs <- items_of a ;;
  kept <- filter_projects keep xs ;;
  alloc (Array kept).

Definition status_eqb (a b : ProjectStatus) : bool :=
  match a, b with
  | Active, Active | Finished, Finished => true
  | _, _ => false
  end.

Definition fields_of (this : nat) : M World ProjectListFields :=
  fun w => match lists w !! this with
           | Some f => (Normal f, w)
           | None => (Throw, w)
           end.

Module ProjectList.

Definition listId (t : ListType) : jsstring := typeName t ++ js "-projects-list".

Definition renderProjects (this : nat) : M World unit :=
  f <- fields_of this ;;
  w <- get ;;
  match getElementById (listId (type f)) w with
  | None => throw
  | Some listEl =>
      set_children listEl (fun _ => []) ;;
      prjs <- items_of (assignedProjects f) ;;
      for_of prjs (fun prjItem =>
        w <- get ;;
        match document w !! ul f with
        | Some u => ProjectItem.constructor (ul_id u) prjItem
        | None => throw
        end)
  end.

(** The listener that [configure] registers. *)
Definition listener (this : nat) : Listener := fun projects =>
  f <- fields_of this ;;
  relevantProjects <- Array_filter projects (fun prj =>
    match type f with
    | active => status_eqb (Project.status prj) Active
    | finished => status_eqb (Project.status prj) Finished
    end) ;;
  modify (set_lists (fun ls =>
    <[this := {| type := type f; assignedProjects := relevantProjects; ul := ul f |}]> ls)) ;;
  renderProjects this.

Definition configure (projectState : nat) (this : nat) : M Runtime unit :=
  Call.addListener projectState (listener this).

Definition renderContent (this : nat) : M World unit :=
  f <- fields_of this ;;
  set_ul_id (ul f) (listId (type f)).

(** [new ProjectList(type)]: the section cloned from the project-list
    template goes last in the page, with its <ul> still without id and
    empty. *)
Definition constructor (projectState : nat) (t : ListType) : M Runtime nat :=
  rt <- get ;;
  let this := List.length (lists (world rt)) in
  let el := List.length (document (world rt)) in
  in_world (modify (set_document (fun doc => doc ++ [{| ul_id := []; children := [] |}]))) ;;
  a <- in_world (alloc (Array [])) ;;
  in_world (modify (set_lists (fun ls =>
    ls ++ [{| type := t; assignedProjects := a; ul := el |}]))) ;;
  configure projectState this ;;
  in_world (renderContent this) ;;
  ret this.

End ProjectList.

Module ProjectInput.

Definition constructor : M World unit :=
  modify (set_form (fun _ =>
    {| titleInputEl := []; descriptionInputEl := []; peopleInputEl := [] |})).

Definition titleValidatable (enteredTitle : jsstring) : Validatable.t :=
  {| Validatable.value_ := Str enteredTitle;
     Validatable.required := Some true;
     Validatable.minLength := None; Validatable.maxLength := None;
     Validatable.min := None; Validatable.max := None |}.

Definition descriptionValidatable (enteredDescription : jsstring) : Validatable.t :=
  {| Validatable.value_ := Str enteredDescription;
     Validatable.required := Some true;
     Validatable.minLength := Some (Number.of_Z 5); Validatable.maxLength := None;
     Validatable.min := None; Validatable.max := None |}.

Definition peopleValidatable (enteredPeople : jsstring) : Validatable.t :=
  {| Validatable.value_ := Num (Number.of_string enteredPeople);
     Validatable.required := Some true;
     Validatable.minLength := None; Validatable.maxLength := None;
     Validatable.min := Some (Number.of_Z 1); Validatable.max := Some (Number.of_Z 5) |}.

Definition invalid_input : jsstring := js "Invalid input, please try again".

(** The tuple, or nothing after the alert. *)
Definition gatherUserInput : M World (option (jsstring * jsstring * number)) :=
  w <- get ;;
  let enteredTitle := titleInputEl (form w) in
  let enteredDescription := descriptionInputEl (form w) in
  let enteredPeople := peopleInputEl (form w) in
  if negb (validate (titleValidatable enteredTitle))
     || negb (validate (descriptionValidatable enteredDescription))
     || negb (validate (peopleValidatable enteredPeople))
  then alert invalid_input ;; ret None
  else ret (Some (enteredTitle, enteredDescription, Number.of_string enteredPeople)).

Definition clearInputs : M World unit :=
  modify (set_form (fun _ =>
    {| titleInputEl := []; descriptionInputEl := []; peopleInputEl := [] |})).

Definition submitHandler (projectState : nat) : M Runtime unit :=
  userInput <- in_world gatherUserInput ;;
  match userInput with
  | Some (title, desc, people) =>
      Call.addProject projectState title desc people ;;
      in_world clearInputs
  | None => ret tt
  end.

End ProjectInput.

(** ** The older ProjectList of src/app.ts *)

Module Legacy.

Definition renderProjects (this : nat) : M World unit :=
  f <- fields_of this ;;
  w <- get ;;
  let listEl := getElementById (ProjectList.listId (type f)) w in
  prjs <- items_of (assignedProjects f) ;;
  for_of prjs (fun prjItem =>
    p <- project_of prjItem ;;
    match listEl with
    | Some el => set_children el (fun lis => lis ++ [TextLi (Project.title p)])
    | None => throw
    end).

Definition listener (this : nat) : Listener := fun projects =>
  f <- fields_of this ;;
  modify (set_lists (fun ls =>
    <[this := {| type := type f; assignedProjects := projects; ul := ul f |}]> ls)) ;;
  renderProjects this.

Definition constructor (projectState : nat) (t : ListType) : M Runtime nat :=
  rt <- get ;;
  let this := List.length (lists (world rt)) in
  let el := List.length (document (world rt)) in
  a <- in_world (alloc (Array [])) ;;
  in_world (modify (set_lists (fun ls =>
    ls ++ [{| type := t; assignedProjects := a; ul := el |}]))) ;;
  Call.addListener projectState (listener this) ;;
  (* attach *)
  in_world (modify (set_document (fun doc => doc ++ [{| ul_id := []; children := [] |}]))) ;;
  in_world (ProjectList.renderContent this) ;;
  ret this.

Definition main : M Runtime nat :=
  projectState <- getInstance ;;
  in_world ProjectInput.constructor ;;
  constructor projectState active ;;
  constructor projectState finished ;;
  ret projectState.

End Legacy.

(** ** The program and the events of the page *)

(** The statements at the top level of the file, in their order. *)
Definition main : M Runtime nat :=
  projectState <- getInstance ;;
  in_world ProjectInput.constructor ;;
  ProjectList.constructor projectState active ;;
  ProjectList.constructor projectState finished ;;
  ret projectState.

(** Before the script runs: nothing constructed, an empty page. *)
Definition boot (rand : nat -> number) : Runtime :=
  {| statics := {| ProjectState.instance := None; ProjectState.constructed := [] |};
     world := {| store := []; document := []; lists := [];
                 form := {| titleInputEl := []; descriptionInputEl := [];
                            peopleInputEl := [] |};
                 alerts := []; random := rand; drawn := 0 |} |}.

(** The user fills in the three inputs, or submits the form. *)
Inductive Event : Type :=
| Fill (title description people : jsstring)
| Submit.

Definition handle (projectState : nat) (e : Event) : M Runtime unit :=
  match e with
  | Fill t d p =>
      in_world (modify (set_form (fun _ =>
        {| titleInputEl := t; descriptionInputEl := d; peopleInputEl := p |})))
  | Submit => ProjectInput.submitHandler projectState
  end.

(** The event loop: one handler after the other, each to its end; a
    handler that throws does not stop the page. *)
Definition dispatch (projectState : nat) (es : list Event) (rt : Runtime) : Runtime :=
  fold_left (fun rt e => snd (handle projectState e rt)) es rt.

(** * Vocabulary of the statements *)

(** A rule set with nothing supplied but the value. *)
Definition bare (v : value) : Validatable.t :=
  {| Validatable.value_ := v; Validatable.required := None;
     Validatable.minLength := None; Validatable.maxLength := None;
     Validatable.min := None; Validatable.max := None |}.

Definition with_required (b : bool) (r : Validatable.t) : Validatable.t :=
  {| Validatable.value_ := Validatable.value_ r; Validatable.required := Some b;
     Validatable.minLength := Validatable.minLength r;
     Validatable.maxLength := Validatable.maxLength r;
     Validatable.min := Validatable.min r; Validatable.max := Validatable.max r |}.

Definition with_minLength (n : number) (r : Validatable.t) : Validatable.t :=
  {| Validatable.value_ := Validatable.value_ r;
     Validatable.required := Validatable.required r;
     Validatable.minLength := Some n;
     Validatable.maxLength := Validatable.maxLength r;
     Validatable.min := Validatable.min r; Validatable.max := Validatable.max r |}.

Definition with_min (n : number) (r : Validatable.t) : Validatable.t :=
  {| Validatable.value_ := Validatable.value_ r;
     Validatable.required := Validatable.required r;
     Validatable.minLength := Validatable.minLength r;
     Validatable.maxLength := Validatable.maxLength r;
     Validatable.min := Some n; Validatable.max := Validatable.max r |}.

Definition with_max (n : number) (r : Validatable.t) : Validatable.t :=
  {| Validatable.value_ := Validatable.value_ r;
     Validatable.required := Validatable.required r;
     Validatable.minLength := Validatable.minLength r;
     Validatable.maxLength := Validatable.maxLength r;
     Validatable.min := Validatable.min r; Validatable.max := Some n |}.

(** The five constraints, each as the sentence of the contract states it. *)
Definition required_passes (r : Validatable.t) : Prop :=
  Validatable.required r = Some true ->
  JsString.trim (toString (Validatable.value_ r)) <> [].

Definition minLength_passes (r : Validatable.t) : Prop :=
  forall bound s,
    Validatable.minLength r = Some bound -> Validatable.value_ r = Str s ->
    Number.ge (Number.of_nat (JsString.length s)) bound = true.

Definition maxLength_passes (r : Validatable.t) : Prop :=
  forall bound s,
    Validatable.maxLength r = Some bound -> Validatable.value_ r = Str s ->
    Number.le (Number.of_nat (JsString.length s)) bound = true.

Definition min_passes (r : Validatable.t) : Prop :=
  forall bound n,
    Validatable.min r = Some bound -> Validatable.value_ r = Num n ->
    Number.ge n bound = true.

Definition max_passes (r : Validatable.t) : Prop :=
  forall bound n,
    Validatable.max r = Some bound -> Validatable.value_ r = Num n ->
    Number.le n bound = true.

(** A listener that writes to no object but the array it is given (and
    what it allocates itself): the other objects of the store are after the
    call what they were before. *)
Definition frame (l : Listener) : Prop :=
  forall (a : ref) (w : World) (r : ref) (o : object),
    r <> a -> store w !! r = Some o -> store (snd (l a w)) !! r = Some o.


(** [projects.length = 0] on the array received: a listener that mutates
    its argument. *)
Definition truncate : Listener := fun projects =>
  modify (set_store (fun st => <[projects := Array []]> st)).

(** One call after the other, each from the state the one before left. *)
Definition addProjects (this : ProjectState.t)
    (calls : list (jsstring * jsstring * number)) (w : World) : World :=
  fold_left (fun w c => snd (ProjectState.addProject this (c.1.1) (c.1.2) (c.2) w))
    calls w.

(** The part of [addProject] before its loop. *)
Definition stored (this : ProjectState.t) (title description : jsstring)
    (numOfPeople : number) : M World unit :=
  r <- Math_random ;;
  newProject <- alloc (Instance (Project.new (Number.to_string r) title description
                                   numOfPeople Active)) ;;
  Array_push (ProjectState.projects this) newProject.



(** The page after the script has run and the events [es] have been
    handled. *)
Definition page (rand : nat -> number) (es : list Event) : Runtime :=
  match main (boot rand) with
  | (Normal projectState, rt) => dispatch projectState es rt
  | (Throw, rt) => rt
  end.



(** A store with one empty array, and a ProjectState on it whose listeners
    empty the array they receive. *)
Definition sample_world : World :=
  set_store (fun _ => [Array []]) (world (boot (fun _ => Number.of_Z 0))).

Definition sample_state : ProjectState.t :=
  {| ProjectState.listeners := [truncate; truncate]; ProjectState.projects := 0%nat |}.

(** The three rule sets of the form, and their verdict on what was
    entered. *)
Definition valid_input (title description people : jsstring) : bool :=
  validate (with_required true (bare (Str title)))
  && validate (with_minLength (Number.of_Z 5) (with_required true (bare (Str description))))
  && validate (with_max (Number.of_Z 5) (with_min (Number.of_Z 1)
                 (with_required true (bare (Num (Number.of_string people)))))).

Definition empty_form : ProjectInputFields :=
  {| titleInputEl := []; descriptionInputEl := []; peopleInputEl := [] |}.

(** The status that a list of the given type shows. *)
Definition category (t : ListType) : ProjectStatus :=
  match t with
  | active => Active
  | finished => Finished
  end.

Definition belongs (t : ListType) (p : Project.t) : bool :=
  status_eqb (Project.status p) (category t).

(** The list item of a project. *)
Definition item (p : Project.t) : LiElement :=
  ItemLi (Project.id p) (Project.title p) (ProjectItem.h3_text p) (Project.description p).

(** The title that a list item shows. *)
Definition shown_title (li : LiElement) : jsstring :=
  match li with
  | ItemLi _ h2 _ _ => h2
  | TextLi text => text
  end.

(** The references [xs] stand for the projects [ps]. *)
Definition resolves (w : World) (xs : list ref) (ps : list Project.t) : Prop :=
  Forall2 (fun r p => store w !! r = Some (Instance p)) xs ps.

(** The references of the projects that [keep] keeps. *)
Fixpoint select (keep : Project.t -> bool) (xs : list ref) (ps : list Project.t)
    : list ref :=
  match xs, ps with
  | x :: xs', p :: ps' =>
      if keep p then x :: select keep xs' ps' else select keep xs' ps'
  | _, _ => []
  end.

(** The ProjectState of the page once the script has run: the two list
    views listen, in the order of their construction. *)
Definition the_projectState : ProjectState.t :=
  {| ProjectState.listeners := [ProjectList.listener 0; ProjectList.listener 1];
     ProjectState.projects := 0%nat |}.

(** The page holds the projects [ps], stored under the references [rs]:
    they are the internal list of the one ProjectState; all are Active; the
    active view has them all, in this order, in its array and in its <ul>;
    the finished view has an empty array and an empty <ul>. *)
Definition page_holds (rt : Runtime) (rs : list ref) (ps : list Project.t) : Prop :=
  statics rt = {| ProjectState.instance := Some 0%nat;
                  ProjectState.constructed := [the_projectState] |}
  /\ store (world rt) !! 0%nat = Some (Array rs)
  /\ resolves (world rt) rs ps
  /\ Forall (fun p => Project.status p = Active) ps
  /\ (forall r p, store (world rt) !! r = Some (Instance p) -> r ∈ rs)
  /\ exists a0 a1 : ref,
       lists (world rt) = [ {| type := active; assignedProjects := a0; ul := 0%nat |};
                            {| type := finished; assignedProjects := a1; ul := 1%nat |} ]
       /\ store (world rt) !! a0 = Some (Array rs)
       /\ store (world rt) !! a1 = Some (Array [])
       /\ document (world rt)
          = [ {| ul_id := ProjectList.listId active; children := map item ps |};
              {| ul_id := ProjectList.listId finished; children := [] |} ].

(** A headcount from 1 to 5. *)
Definition in_bounds (n : number) : Prop :=
  Number.le (Number.of_Z 1) n = true /\ Number.le n (Number.of_Z 5) = true.

(** A number that is an integer. *)
Definition is_integer (n : number) : bool :=
  match n with
  | Number.Fin q => Z.pos (Qden (Qred q)) =? 1
  | _ => false
  end.

(** The page of src/app.ts after its script and the events [es]. *)
Definition legacy_page (rand : nat -> number) (es : list Event) : Runtime :=
  match Legacy.main (boot rand) with
  | (Normal projectState, rt) => dispatch projectState es rt
  | (Throw, rt) => rt
  end.

(** The titles that the lists of the page show, list by list. *)
Definition shown_titles (rt : Runtime) : list (list jsstring) :=
  map (fun u => map shown_title (children u)) (document (world rt)).

(** A source of random numbers for the examples. *)
Definition sevenths (k : nat) : number := Number.round (Z.of_nat (S k) # 7).

(** A world for the examples of the list views: one Active and one
    Finished project behind the array [2], and the two views of the page,
    still empty. *)
Definition mixed_world : World :=
  {| store := [ Instance (Project.new (js "0.1") (js "Plant") (js "Plant a tree")
                           (Number.of_Z 1) Active);
                Instance (Project.new (js "0.2") (js "Paint") (js "Paint the fence")
                           (Number.of_Z 2) Finished);
                Array [0%nat; 1%nat];
                Array []; Array [] ];
     document := [ {| ul_id := ProjectList.listId active; children := [] |};
                   {| ul_id := ProjectList.listId finished; children := [] |} ];
     lists := [ {| type := active; assignedProjects := 3%nat; ul := 0%nat |};
                {| type := finished; assignedProjects := 4%nat; ul := 1%nat |} ];
     form := empty_form;
     alerts := [];
     random := sevenths;
     drawn := 0 |}.

(** Two valid submissions. *)
Definition two_submissions : list Event :=
  [ Fill (js "Build API") (js "Backend work") (js "3"); Submit;
    Fill (js "Write docs") (js "User guide") (js "1"); Submit ].

(** * Vocabulary of the further properties *)

(** Every state that [m] can leave is related by [R] to the one it
    started from, whether it returns or throws. *)
Definition steps {A} (R : World -> World -> Prop) (m : M World A) : Prop :=
  forall w, R w (snd (m w)).

(** The store of [w'] is the store of [w] with new objects after it:
    nothing that was stored has been written to. *)
Definition store_extends (w w' : World) : Prop :=
  exists more, store w' = store w ++ more.

(** Math.random is where it was: same stock, same number of draws. *)
Definition same_random (w w' : World) : Prop :=
  random w' = random w /\ drawn w' = drawn w.

(** What [steps R] asks of the primitives of the views: allocation and
    the updates of the views and of the page. *)
Record respected (R : World -> World -> Prop) : Prop := {
  respects_alloc : forall o w, R w (set_store (fun st => st ++ [o]) w);
  respects_lists : forall f w, R w (set_lists f w);
  respects_document : forall f w, R w (set_document f w)
}.


(** A string of white space only (the empty string is one). *)
Definition blank (s : jsstring) : Prop :=
  Forall (fun c => JsString.isWhiteSpace c = true) s.

(** The titles that the lists of src/app.ts have accumulated once the
    projects with the titles [ts] have been added one by one, [seen] being
    the titles of the projects added before them: each addition appends the
    titles of all the projects there are. *)
Fixpoint accumulated (seen ts : list jsstring) : list jsstring :=
  match ts with
  | [] => []
  | t :: ts' => (seen ++ [t]) ++ accumulated (seen ++ [t]) ts'
  end.

(** The submit events among [es]. *)
Definition submits (es : list Event) : nat :=
  List.length (List.filter (fun e => match e with Submit => true | Fill _ _ _ => false end) es).

(** The page of src/app.ts holds the projects [ps] under the references
    [rs]: they are the internal list of the one ProjectState, both views
    hold an array with all of them, and both <ul> show the titles [shown]. *)
Definition legacy_projectState : ProjectState.t :=
  {| ProjectState.listeners := [Legacy.listener 0; Legacy.listener 1];
     ProjectState.projects := 0%nat |}.

Definition legacy_holds (rt : Runtime) (rs : list ref) (ps : list Project.t)
    (shown : list jsstring) : Prop :=
  statics rt = {| ProjectState.instance := Some 0%nat;
                  ProjectState.constructed := [legacy_projectState] |}
  /\ store (world rt) !! 0%nat = Some (Array rs)
  /\ resolves (world rt) rs ps
  /\ exists a0 a1 : ref,
       lists (world rt) = [ {| type := active; assignedProjects := a0; ul := 0%nat |};
                            {| type := finished; assignedProjects := a1; ul := 1%nat |} ]
       /\ document (world rt)
          = [ {| ul_id := ProjectList.listId active; children := map TextLi shown |};
              {| ul_id := ProjectList.listId finished; children := map TextLi shown |} ].


(** [mixed_world] once the active view has been given the array of the
    two projects and its <ul> holds an item left from before. *)
Definition stale_world : World :=
  set_document (fun doc => <[0%nat := {| ul_id := ProjectList.listId active;
                                        children := [TextLi (js "old")] |}]> doc)
    (set_lists (fun ls => <[0%nat := {| type := active; assignedProjects := 2%nat;
                                       ul := 0%nat |}]> ls)
       mixed_world).

(** The text item of src/app.ts for a project. *)
Definition text_item (p : Project.t) : LiElement := TextLi (Project.title p).

(** * Strings and numbers *)

Section Trim.

Lemma trimStart_keeps c s :
  JsString.isWhiteSpace c = false -> JsString.trimStart (c :: s) = c :: s.
Proof. intros H. simpl. now rewrite H. Qed.

Lemma trimStart_snoc s c :
  JsString.isWhiteSpace c = false -> JsString.trimStart (s ++ [c]) <> [].
Proof.
  intros H. induction s as [|d s IH]; simpl.
  - now rewrite H.
  - destruct (JsString.isWhiteSpace d); [exact IH | discriminate].
Qed.

(** A string that starts with something else than white space is not
    trimmed to the empty string. *)
Lemma trim_nonempty c s :
  JsString.isWhiteSpace c = false -> JsString.trim (c :: s) <> [].
Proof.
  intros H. unfold JsString.trim, JsString.trimEnd.
  rewrite trimStart_keeps by exact H. simpl rev.
  intros E. apply (f_equal (@rev N)) in E. rewrite rev_involutive in E.
  now apply (trimStart_snoc (rev s) c H).
Qed.

Lemma trim_empty_length s :
  (JsString.length (JsString.trim s) =? 0)%nat = true <-> JsString.trim s = [].
Proof.
  unfold JsString.length. destruct (JsString.trim s); simpl; split; congruence.
Qed.

End Trim.

Section NumberToString.

Lemma digit_not_space r :
  (r < 10)%N -> JsString.isWhiteSpace (48 + r) = false.
Proof.
  intros H. unfold JsString.isWhiteSpace.
  repeat match goal with
  | |- context [(?a <=? ?b)%N] =>
      let E := fresh in destruct (N.leb_spec a b) as [E|E]; try lia
  | |- context [(?a =? ?b)%N] =>
      let E := fresh in destruct (N.eqb_spec a b) as [E|E]; try lia
  end; reflexivity.
Qed.

Lemma to_digits_head fuel n acc :
  exists r rest, (r < 10)%N /\ Number.to_digits fuel n acc = (48 + r)%N :: rest.
Proof.
  revert n acc. induction fuel as [|fuel IH]; intros n acc; simpl.
  - exists (n mod 10)%N, acc. split; [apply N.mod_upper_bound; lia | reflexivity].
  - destruct (n / 10 =? 0)%N.
    + exists (n mod 10)%N, acc. split; [apply N.mod_upper_bound; lia | reflexivity].
    + apply IH.
Qed.

Lemma decimal_head n :
  exists r rest, (r < 10)%N /\ Number.decimal n = (48 + r)%N :: rest.
Proof. apply to_digits_head. Qed.

(** Whatever [n], the formatted digits start with one of the digits or
    with the 0 of "0.". *)
Lemma format_head n d ds :
  exists c rest, Number.format n (d :: ds) = c :: rest /\ (c = d \/ c = 48%N).
Proof.
  unfold Number.format.
  destruct ((-5 <=? n) && (n <=? 21)).
  - destruct (Z.leb_spec (Z.of_nat (List.length (d :: ds))) n).
    + exists d, (ds ++ Number.zeros (n - Z.of_nat (List.length (d :: ds)))). auto.
    + destruct (Z.ltb_spec 0 n).
      * destruct (Z.to_nat n) as [|k] eqn:E; [lia|].
        simpl. eexists _, _. split; [reflexivity | auto].
      * simpl. eexists _, _. split; [reflexivity | auto].
  - destruct ds; simpl; eexists _, _; (split; [reflexivity | auto]).
Qed.

Lemma to_string_pos_head x :
  exists c rest, Number.to_string_pos x = c :: rest /\ JsString.isWhiteSpace c = false.
Proof.
  unfold Number.to_string_pos.
  destruct (Number.shortest 16 1 x) as [[n k] s].
  destruct (decimal_head (Z.to_N s)) as (r & rest & Hr & E). rewrite E.
  destruct (format_head n (48 + r)%N rest) as (c & rest' & E' & [-> | ->]).
  - exists (48 + r)%N, rest'. split; [exact E' | now apply digit_not_space].
  - exists 48%N, rest'. split; [exact E' | reflexivity].
Qed.

Lemma to_string_head x :
  exists c rest, Number.to_string x = c :: rest /\ JsString.isWhiteSpace c = false.
Proof.
  destruct x as [|[|]|q]; simpl.
  1-3: eexists _, _; split; [reflexivity | reflexivity].
  destruct (Qnum q).
  - eexists _, _; split; reflexivity.
  - apply to_string_pos_head.
  - eexists _, _; split; reflexivity.
Qed.

(** The string form of a number never trims to the empty string. *)
Lemma to_string_trim x : JsString.trim (Number.to_string x) <> [].
Proof.
  destruct (to_string_head x) as (c & rest & -> & H). now apply trim_nonempty.
Qed.

End NumberToString.

(** * validate *)

Section Validate.

Lemma nonempty_check s :
  negb (JsString.length s =? 0)%nat = true <-> s <> [].
Proof. unfold JsString.length. destruct s; simpl; split; congruence. Qed.

(** C3.  [validate] returns true exactly when every supplied constraint
    passes: [required] asks for a string form that is not empty once
    trimmed, [minLength] and [maxLength] bind strings only, [min] and [max]
    numbers only, and whatever is unset or of the other type is skipped;
    [validate] is a total function, nothing is raised.  The five examples
    of the contract come out as stated. *)
Theorem validate_all_constraints :
  (forall r : Validatable.t,
      validate r = true <->
      required_passes r /\ minLength_passes r /\ maxLength_passes r
      /\ min_passes r /\ max_passes r)
  /\ validate (with_required true (bare (Str (js "")))) = false
  /\ validate (with_minLength (Number.of_Z 5)
                 (with_required true (bare (Str (js "abc"))))) = false
  /\ validate (with_minLength (Number.of_Z 5)
                 (with_required true (bare (Str (js "abcde"))))) = true
  /\ validate (with_max (Number.of_Z 5)
                 (with_min (Number.of_Z 1) (bare (Num (Number.of_Z 3))))) = true
  /\ validate (with_max (Number.of_Z 5)
                 (with_min (Number.of_Z 1) (bare (Num (Number.of_Z 6))))) = false.
Proof.
  split; [| repeat split; reflexivity].
  intros [v req minL maxL mn mx].
  unfold validate, required_passes, minLength_passes, maxLength_passes,
    min_passes, max_passes; cbn [Validatable.value_ Validatable.required
    Validatable.minLength Validatable.maxLength Validatable.min Validatable.max].
  destruct req as [[|]|]; cbn [truthy andb];
    destruct v as [s|n], minL as [b1|], maxL as [b2|], mn as [b3|], mx as [b4|];
    rewrite ?andb_true_iff, ?nonempty_check;
    (split;
     [ intros H; repeat split; intros; simplify_eq; tauto
     | intros (H1 & H2 & H3 & H4 & H5);
       repeat split;
       first [ now apply H1 | now eapply H2 | now eapply H3
             | now eapply H4 | now eapply H5 | idtac ] ]).
Qed.

(** C10.  A number always passes [required]: its string form never trims
    to the empty string.  An empty people field is the number 0, which
    passes [required] and the upper bound and fails the lower bound
    alone. *)
Theorem number_passes_required :
  (forall n : number, JsString.trim (toString (Num n)) <> [])
  /\ (forall n : number, validate (with_required true (bare (Num n))) = true)
  /\ Number.of_string (js "") = Number.of_Z 0
  /\ validate (with_required true (bare (Num (Number.of_string (js ""))))) = true
  /\ validate (with_max (Number.of_Z 5)
                 (with_required true (bare (Num (Number.of_string (js "")))))) = true
  /\ validate (with_min (Number.of_Z 1) (bare (Num (Number.of_string (js ""))))) = false
  /\ validate (ProjectInput.peopleValidatable (js "")) = false.
Proof.
  split; [intros n; apply to_string_trim |].
  split; [| repeat split; reflexivity].
  intros n. unfold validate; cbn.
  apply nonempty_check, to_string_trim.
Qed.

End Validate.

(** * ProjectItem *)

Section Persons.



End Persons.

(** * ProjectState *)

Section Store.

Lemma lookup_alloc_old (st : list object) (o o' : object) (r : ref) :
  st !! r = Some o -> (st ++ [o']) !! r = Some o.
Proof. intros H. now apply lookup_app_l_Some. Qed.

Lemma lookup_alloc_new (st : list object) (o : object) :
  (st ++ [o]) !! List.length st = Some o.
Proof. apply list_lookup_middle. reflexivity. Qed.

Lemma lookup_allocated (st : list object) (r : ref) (o : object) :
  st !! r = Some o -> r <> List.length st.
Proof. intros H%lookup_lt_Some. lia. Qed.

Lemma lookup_fresh (st : list object) : st !! List.length st = None.
Proof. apply lookup_ge_None. lia. Qed.

End Store.

Section Singleton.

Lemma in_world_statics {A} (m : M World A) rt :
  statics (snd (in_world m rt)) = statics rt.
Proof. unfold in_world. destruct (m (world rt)) as [c w]. reflexivity. Qed.

Lemma addProject_statics this t d n rt :
  statics (snd (Call.addProject this t d n rt)) = statics rt.
Proof.
  unfold Call.addProject, Call.deref, bind.
  destruct (ProjectState.constructed (statics rt) !! this); [| reflexivity].
  apply in_world_statics.
Qed.

Lemma submitHandler_statics ps rt :
  statics (snd (ProjectInput.submitHandler ps rt)) = statics rt.
Proof.
  unfold ProjectInput.submitHandler, bind.
  pose proof (in_world_statics ProjectInput.gatherUserInput rt) as H.
  destruct (in_world ProjectInput.gatherUserInput rt) as [[[[[t d] n]|]|] rt1];
    simpl in H; try (simpl; congruence).
  pose proof (addProject_statics ps t d n rt1) as H1.
  destruct (Call.addProject ps t d n rt1) as [[[]|] rt2]; cbn [snd] in *; [| congruence].
  rewrite in_world_statics. congruence.
Qed.

Lemma handle_statics ps e rt : statics (snd (handle ps e rt)) = statics rt.
Proof.
  destruct e; simpl.
  - reflexivity.
  - apply submitHandler_statics.
Qed.

Lemma dispatch_statics ps es rt : statics (dispatch ps es rt) = statics rt.
Proof.
  unfold dispatch. revert rt. induction es as [|e es IH]; intros rt; simpl.
  - reflexivity.
  - rewrite IH. apply handle_statics.
Qed.

Lemma main_statics rand :
  exists ps rt,
    main (boot rand) = (Normal 0%nat, rt)
    /\ statics rt = {| ProjectState.instance := Some 0%nat;
                       ProjectState.constructed := [ps] |}.
Proof. eexists _, _. split; reflexivity. Qed.

Lemma page_statics rand es :
  exists ps,
    statics (page rand es) = {| ProjectState.instance := Some 0%nat;
                                ProjectState.constructed := [ps] |}.
Proof.
  unfold page. destruct (main_statics rand) as (ps & rt & -> & H).
  exists ps. now rewrite dispatch_statics.
Qed.

Lemma getInstance_again rt this :
  ProjectState.instance (statics rt) = Some this ->
  getInstance rt = (Normal this, rt).
Proof. intros H. unfold getInstance. now rewrite H. Qed.

(** C8.  An access returns an instance, and the access after it returns
    the same one and changes nothing; once the instance exists an access
    constructs nothing.  On the page, whatever events were handled and
    however many accesses were made since, an access returns the
    [projectState] of the script and exactly one ProjectState has been
    constructed. *)
Theorem getInstance_same_instance :
  (forall rt : Runtime,
      exists this rt',
        getInstance rt = (Normal this, rt')
        /\ getInstance rt' = (Normal this, rt')
        /\ (ProjectState.instance (statics rt) <> None -> rt' = rt))
  /\ (forall (rand : nat -> number) (es : list Event) (n : nat),
        let rt := Nat.iter n (fun rt => snd (getInstance rt)) (page rand es) in
        fst (main (boot rand)) = Normal 0%nat
        /\ fst (getInstance rt) = Normal 0%nat
        /\ List.length (ProjectState.constructed (statics (snd (getInstance rt)))) = 1%nat).
Proof.
  split.
  - intros rt. destruct (ProjectState.instance (statics rt)) as [this|] eqn:E.
    + exists this, rt. rewrite (getInstance_again rt this E). auto.
    + unfold getInstance at 1. rewrite E. simpl.
      eexists _, _. split; [reflexivity |]. split; [| congruence].
      now apply getInstance_again.
  - intros rand es n rt.
    assert (H : exists ps, statics rt = {| ProjectState.instance := Some 0%nat;
                                           ProjectState.constructed := [ps] |}).
    { subst rt. induction n as [|n IH]; simpl.
      - apply page_statics.
      - destruct IH as (ps & IH). exists ps.
        rewrite getInstance_again with (this := 0%nat) by now rewrite IH.
        exact IH. }
    destruct H as (ps & H).
    rewrite getInstance_again with (this := 0%nat) by now rewrite H.
    simpl. rewrite H. auto.
Qed.

End Singleton.

Section AddProject.

Implicit Types (w : World) (this : ProjectState.t) (l : Listener).

Lemma Array_spread_array a w ys :
  store w !! a = Some (Array ys) ->
  Array_spread a w
  = (Normal (List.length (store w)), set_store (fun st => st ++ [Array ys]) w).
Proof. intros H. unfold Array_spread, items_of, bind. now rewrite H. Qed.

Lemma Array_spread_throws a w :
  (forall ys, store w !! a <> Some (Array ys)) -> Array_spread a w = (Throw, w).
Proof.
  intros H. unfold Array_spread, items_of, bind.
  destruct (store w !! a) as [[ys|p]|] eqn:E; try reflexivity. now destruct (H ys).
Qed.

(** What [addProject] has done when its loop starts. *)
Lemma stored_world this t d n w xs :
  store w !! ProjectState.projects this = Some (Array xs) ->
  stored this t d n w
  = (Normal tt,
     set_store (fun st => <[ProjectState.projects this
                             := Array (xs ++ [List.length (store w)])]> st)
       (set_store (fun st => st ++ [Instance (Project.new
                     (Number.to_string (random w (drawn w))) t d n Active)])
          (set_drawn S w))).
Proof.
  intros H. unfold stored, bind, Math_random, alloc, Array_push, items_of, bind, modify.
  destruct w as [st doc ls fm al rnd dr]; simpl in *.
  now rewrite (lookup_alloc_old _ _ _ _ H).
Qed.

Lemma addProject_split this t d n w :
  ProjectState.addProject this t d n w
  = (stored this t d n ;;
     for_of (ProjectState.listeners this) (fun listenerFn =>
       copy <- Array_spread (ProjectState.projects this) ;;
       listenerFn copy)) w.
Proof.
  unfold ProjectState.addProject, stored, bind, Math_random, alloc. simpl.
  reflexivity.
Qed.

Lemma addProject_loop this t d n w xs :
  store w !! ProjectState.projects this = Some (Array xs) ->
  ProjectState.addProject this t d n w
  = for_of (ProjectState.listeners this) (fun listenerFn =>
      copy <- Array_spread (ProjectState.projects this) ;;
      listenerFn copy)
      (snd (stored this t d n w)).
Proof.
  intros H. rewrite addProject_split. unfold bind at 1.
  now rewrite (stored_world _ _ _ _ _ _ H).
Qed.

(** The loop leaves every object that is there when it starts as it
    is, if the listeners write to their own copies only. *)
Lemma notify_frame pr (ls : list Listener) :
  Forall frame ls ->
  forall w r o,
    store w !! r = Some o ->
    store (snd (for_of ls (fun listenerFn =>
                   copy <- Array_spread pr ;; listenerFn copy) w)) !! r = Some o.
Proof.
  induction 1 as [|l ls Hl _ IH]; intros w r o Hr; simpl; [exact Hr |].
  unfold bind at 1. unfold bind at 1.
  destruct (store w !! pr) as [[ys|p]|] eqn:E.
  - rewrite (Array_spread_array _ _ _ E).
    pose proof (Hl (List.length (store w)) (set_store (fun st => st ++ [Array ys]) w) r o
                  (lookup_allocated _ _ _ Hr)) as Hf.
    destruct w as [st doc lsv fm al rnd dr]; simpl in *.
    specialize (Hf (lookup_alloc_old _ _ _ _ Hr)).
    destruct (l _ _) as [[[]|] w2]; simpl in *; [now apply IH | exact Hf].
  - rewrite Array_spread_throws by (intros ys; rewrite E; discriminate). exact Hr.
  - rewrite Array_spread_throws by (intros ys; rewrite E; discriminate). exact Hr.
Qed.

Lemma addProject_appends this t d n w xs :
  Forall frame (ProjectState.listeners this) ->
  store w !! ProjectState.projects this = Some (Array xs) ->
  let w' := snd (ProjectState.addProject this t d n w) in
  let r := List.length (store w) in
  store w' !! ProjectState.projects this = Some (Array (xs ++ [r]))
  /\ store w' !! r = Some (Instance (Project.new
                             (Number.to_string (random w (drawn w))) t d n Active))
  /\ (forall r' o, r' <> ProjectState.projects this ->
                   store w !! r' = Some o -> store w' !! r' = Some o).
Proof.
  intros Hls Hxs w' r. subst w'. rewrite (addProject_loop _ _ _ _ _ _ Hxs).
  rewrite (stored_world _ _ _ _ _ _ Hxs). cbn [snd].
  set (w3 := set_store _ _).
  pose proof (lookup_lt_Some _ _ _ Hxs) as Hlt.
  assert (H3 : store w3 !! ProjectState.projects this = Some (Array (xs ++ [r]))).
  { subst w3. destruct w; simpl in *. apply list_lookup_insert_eq.
    rewrite length_app. lia. }
  assert (Hr : store w3 !! r
               = Some (Instance (Project.new
                    (Number.to_string (random w (drawn w))) t d n Active))).
  { subst w3 r. destruct w; simpl in *. rewrite list_lookup_insert_ne by lia.
    apply lookup_alloc_new. }
  assert (Hold : forall r' o, r' <> ProjectState.projects this ->
                   store w !! r' = Some o -> store w3 !! r' = Some o).
  { intros r' o Hne Ho. subst w3. destruct w; simpl in *.
    rewrite list_lookup_insert_ne by congruence. now apply lookup_alloc_old. }
  repeat split; intros; apply notify_frame; auto.
Qed.

Lemma truncate_frame : frame truncate.
Proof.
  intros a w r o Hne Hr. unfold truncate, modify. destruct w; simpl in *.
  now rewrite list_lookup_insert_ne by congruence.
Qed.


(** C1.  Whatever the calls of [addProject] (with listeners that keep to
    their copies), the stored list is afterwards the old one followed by
    one new project per call, in the order of the calls; each of them is a
    new object with the data of its call and the status Active; and every
    object stored before, the earlier projects among them, is what it
    was. *)
Theorem addProject_appends_in_order this
    (calls : list (jsstring * jsstring * number)) w (xs : list ref) :
  Forall frame (ProjectState.listeners this) ->
  store w !! ProjectState.projects this = Some (Array xs) ->
  let w' := addProjects this calls w in
  exists rs : list ref,
    List.length rs = List.length calls
    /\ store w' !! ProjectState.projects this = Some (Array (xs ++ rs))
    /\ Forall2 (fun c r =>
                  store w !! r = None
                  /\ exists i, store w' !! r
                               = Some (Instance (Project.new i (c.1.1) (c.1.2) (c.2) Active)))
         calls rs
    /\ (forall r o, r <> ProjectState.projects this ->
                    store w !! r = Some o -> store w' !! r = Some o).
Proof.
  intros Hls. revert w xs.
  induction calls as [|[[t d] n] calls IH]; intros w xs Hxs; simpl.
  - exists []. rewrite app_nil_r. repeat split; auto.
  - destruct (addProject_appends this t d n w xs Hls Hxs) as (H1 & H2 & H3).
    set (w1 := snd (ProjectState.addProject this t d n w)) in *.
    destruct (IH w1 _ H1) as (rs & Hlen & Hfin & Hall & Hold).
    exists (List.length (store w) :: rs).
    split; [simpl; congruence |].
    split; [now rewrite <- app_assoc in Hfin |].
    split.
    + constructor.
      * split; [apply lookup_fresh |]. eexists. apply Hold; [| exact H2].
        apply lookup_lt_Some in Hxs. lia.
      * eapply Forall2_impl; [exact Hall |]. intros c r [Hnone Hsome]. split; [| exact Hsome].
        destruct (store w !! r) as [o|] eqn:E; [exfalso | exact E].
        destruct (decide (r = ProjectState.projects this)) as [->|Hne].
        -- rewrite H1 in Hnone. discriminate.
        -- rewrite (H3 r o Hne E) in Hnone. discriminate.
    + intros r o Hne Hr. apply Hold; auto.
Qed.

End AddProject.

Section Notify.

Implicit Types (w : World) (this : ProjectState.t) (l : Listener).





Lemma addProject_appends_in_order_witness :
  Forall frame (ProjectState.listeners sample_state)
  /\ store sample_world !! ProjectState.projects sample_state = Some (Array [])
  /\ let calls := [(js "a", js "first", Number.of_Z 1);
                   (js "b", js "second", Number.of_Z 2)] in
     let w' := addProjects sample_state calls sample_world in
     exists rs : list ref,
       List.length rs = 2%nat
       /\ store w' !! 0%nat = Some (Array ([] ++ rs))
       /\ Forall2 (fun c r =>
                     store sample_world !! r = None
                     /\ exists i, store w' !! r
                          = Some (Instance (Project.new i (c.1.1) (c.1.2) (c.2) Active)))
            calls rs
       /\ (forall r o, r <> 0%nat ->
                       store sample_world !! r = Some o -> store w' !! r = Some o).
Proof.
  assert (Hf : Forall frame (ProjectState.listeners sample_state))
    by (repeat constructor; apply truncate_frame).
  split; [exact Hf |]. split; [reflexivity |].
  exact (addProject_appends_in_order sample_state
           [(js "a", js "first", Number.of_Z 1); (js "b", js "second", Number.of_Z 2)]
           sample_world [] Hf eq_refl).
Defined.

End Notify.

(** * The form *)

Section Submit.

Lemma valid_input_rules t d p :
  valid_input t d p
  = validate (ProjectInput.titleValidatable t)
    && validate (ProjectInput.descriptionValidatable d)
    && validate (ProjectInput.peopleValidatable p).
Proof. reflexivity. Qed.

(** What the three rule sets ask for. *)
Lemma valid_input_iff t d p :
  valid_input t d p = true <->
  JsString.trim t <> []
  /\ (JsString.trim d <> []
      /\ Number.ge (Number.of_nat (JsString.length d)) (Number.of_Z 5) = true)
  /\ (Number.ge (Number.of_string p) (Number.of_Z 1) = true
      /\ Number.le (Number.of_string p) (Number.of_Z 5) = true).
Proof.
  unfold valid_input, validate; cbn.
  rewrite !andb_true_iff, !nonempty_check.
  pose proof (to_string_trim (Number.of_string p)). tauto.
Qed.

(** The submit handler, by the verdict of the three rule sets. *)
Lemma submitHandler_cases (projectState : nat) (rt : Runtime) :
  let title := titleInputEl (form (world rt)) in
  let description := descriptionInputEl (form (world rt)) in
  let people := peopleInputEl (form (world rt)) in
  ProjectInput.submitHandler projectState rt
  = if valid_input title description people
    then
      match Call.addProject projectState title description
              (Number.of_string people) rt with
      | (Normal _, rt') =>
          (Normal tt, {| statics := statics rt';
                         world := set_form (fun _ => empty_form) (world rt') |})
      | (Throw, rt') => (Throw, rt')
      end
    else
      (Normal tt,
       {| statics := statics rt;
          world := set_alerts
                     (fun shown => shown ++ [js "Invalid input, please try again"])
                     (world rt) |}).
Proof.
  intros title description people. rewrite valid_input_rules.
  unfold ProjectInput.submitHandler, ProjectInput.gatherUserInput, in_world.
  unfold bind at 1. unfold bind at 1. unfold get.
  fold title description people.
  destruct (validate (ProjectInput.titleValidatable title)),
    (validate (ProjectInput.descriptionValidatable description)),
    (validate (ProjectInput.peopleValidatable people)); cbn [negb orb andb];
    try reflexivity.
  unfold ret, bind.
  destruct (Call.addProject projectState title description
              (Number.of_string people) {| statics := statics rt; world := world rt |})
    as [[[]|] rt'] eqn:E.
  all: destruct rt as [st w]; cbn [statics world] in *; rewrite E; reflexivity.
Qed.

(** C2.  The submit handler, by the verdict of the three rule sets on
    the entered values: if one of them fails, the alert is shown and
    nothing else changes (no call of [addProject], the inputs as they
    were); if all pass, [addProject] is called once with the title, the
    description and the people field converted to a number, and when it
    has returned the three inputs are set to the empty string. *)
Theorem submitHandler_validates (projectState : nat) (rt : Runtime) :
  let title := titleInputEl (form (world rt)) in
  let description := descriptionInputEl (form (world rt)) in
  let people := peopleInputEl (form (world rt)) in
  ProjectInput.submitHandler projectState rt
  = if valid_input title description people
    then
      match Call.addProject projectState title description
              (Number.of_string people) rt with
      | (Normal _, rt') =>
          (Normal tt, {| statics := statics rt';
                         world := set_form (fun _ => empty_form) (world rt') |})
      | (Throw, rt') => (Throw, rt')
      end
    else
      (Normal tt,
       {| statics := statics rt;
          world := set_alerts
                     (fun shown => shown ++ [js "Invalid input, please try again"])
                     (world rt) |}).
Proof. exact (submitHandler_cases projectState rt). Qed.

End Submit.

(** * The list views *)

Section Render.

Implicit Types (w : World) (p : Project.t) (u : UlElement).

Lemma find_id_insert (doc : list UlElement) i el u u' :
  doc !! el = Some u -> ul_id u' = ul_id u ->
  fst <$> list_find (fun x => ul_id x = i) (<[el := u']> doc)
  = fst <$> list_find (fun x => ul_id x = i) doc.
Proof.
  revert el. induction doc as [|x doc IH]; intros el Hel Hid; [discriminate |].
  destruct el as [|el]; simpl in *.
  - injection Hel as ->. rewrite Hid.
    destruct (decide (ul_id u = i)); reflexivity.
  - destruct (decide (ul_id x = i)); [reflexivity |].
    specialize (IH el Hel Hid).
    destruct (list_find _ (<[el := u']> doc)) as [[]|],
      (list_find _ doc) as [[]|]; simpl in *; congruence.
Qed.

Lemma getElementById_insert i w el u u' :
  document w !! el = Some u -> ul_id u' = ul_id u ->
  getElementById i (set_document (fun doc => <[el := u']> doc) w) = getElementById i w.
Proof.
  intros. unfold getElementById. destruct w; simpl in *. eapply find_id_insert; eauto.
Qed.

Lemma lookup_alloc_new_li (lis : list LiElement) (x : LiElement) :
  (lis ++ [x]) !! List.length lis = Some x.
Proof. apply list_lookup_middle. reflexivity. Qed.

Lemma item_rendered (lis : list LiElement) p :
  <[List.length lis := item p]> (lis ++ [ItemLi (Project.id p) [] [] []])
  = lis ++ [item p].
Proof.
  induction lis as [|x lis IH]; simpl; [reflexivity | now rewrite IH].
Qed.

(** A new ProjectItem: one more item at the end of the host. *)
Lemma ProjectItem_appended hostId (r : ref) w p el u :
  store w !! r = Some (Instance p) ->
  getElementById hostId w = Some el ->
  document w !! el = Some u ->
  ProjectItem.constructor hostId r w
  = (Normal tt,
     set_document (fun doc =>
       <[el := {| ul_id := ul_id u; children := children u ++ [item p] |}]> doc) w).
Proof.
  intros Hr Hel Hu.
  unfold ProjectItem.constructor, ProjectItem.renderContent, Component.constructor,
    project_of, set_children, bind, get, modify, ret.
  rewrite Hr, Hel. destruct w as [st doc ls fm al rnd dr]; simpl in *.
  rewrite Hr, Hu. unfold set_document; simpl. rewrite Hu.
  pose proof (lookup_lt_Some _ _ _ Hu) as Hlt.
  rewrite !list_lookup_insert_eq by (rewrite ?length_insert; exact Hlt). simpl.
  rewrite lookup_alloc_new_li, list_insert_insert_eq.
  fold (item p). now rewrite item_rendered.
Qed.

(** The loop of [renderProjects]: one item per project, in order, after
    what the host holds already. *)
Lemma items_appended (rs : list ref) (ps : list Project.t) :
  forall w el u,
    resolves w rs ps ->
    document w !! el = Some u ->
    getElementById (ul_id u) w = Some el ->
    for_of rs (fun prjItem =>
      w <- get ;;
      match document w !! el with
      | Some u => ProjectItem.constructor (ul_id u) prjItem
      | None => throw
      end) w
    = (Normal tt,
       set_document (fun doc =>
         <[el := {| ul_id := ul_id u; children := children u ++ map item ps |}]> doc) w).
Proof.
  intros w el u H. revert ps w H el u.
  induction rs as [|r rs IH]; intros ps w H el u Hu Hel;
    apply Forall2_length in H as Hlen; destruct ps as [|p ps]; try discriminate.
  - simpl. rewrite app_nil_r. unfold ret. f_equal.
    destruct w, u; unfold set_document; simpl in *. now rewrite list_insert_id.
  - apply Forall2_cons in H as [Hr H].
    cbn [for_of]. unfold bind at 1. unfold bind at 1. unfold get. rewrite Hu.
    rewrite (ProjectItem_appended _ _ _ _ _ _ Hr Hel Hu).
    set (u1 := {| ul_id := ul_id u; children := children u ++ [item p] |}).
    pose proof (lookup_lt_Some _ _ _ Hu) as Hlt.
    rewrite (IH ps (set_document (fun doc => <[el := u1]> doc) w)) with (u := u1).
    + f_equal. destruct w; unfold set_document; simpl in *.
      rewrite list_insert_insert_eq, <- app_assoc. reflexivity.
    + unfold resolves in *. destruct w; simpl in *. exact H.
    + destruct w; simpl in *. now apply list_lookup_insert_eq.
    + simpl. now rewrite (getElementById_insert _ _ _ u).
Qed.

Lemma filter_projects_resolved keep (xs : list ref) (ps : list Project.t) w :
  resolves w xs ps ->
  filter_projects keep xs w = (Normal (select keep xs ps), w).
Proof.
  induction 1 as [|r p xs ps Hr _ IH]; [reflexivity |].
  simpl. unfold bind at 1. unfold project_of. rewrite Hr.
  unfold bind at 1. rewrite IH. reflexivity.
Qed.

Lemma select_ext keep keep' (xs : list ref) (ps : list Project.t) :
  (forall p, keep p = keep' p) -> select keep xs ps = select keep' xs ps.
Proof.
  intros E. revert ps. induction xs as [|x xs IH]; intros [|p ps]; simpl; auto.
  rewrite E, IH. reflexivity.
Qed.

Lemma select_resolved keep (xs : list ref) (ps : list Project.t) w :
  resolves w xs ps -> resolves w (select keep xs ps) (List.filter keep ps).
Proof.
  induction 1 as [|r p xs ps Hr _ IH]; simpl; [constructor |].
  destruct (keep p); [constructor |]; assumption.
Qed.

Lemma resolves_alloc w (xs : list ref) (ps : list Project.t) o :
  resolves w xs ps -> resolves (set_store (fun st => st ++ [o]) w) xs ps.
Proof.
  unfold resolves. intros H. eapply Forall2_impl; [exact H |].
  intros r p Hr. destruct w; simpl in *. now apply lookup_alloc_old.
Qed.

Lemma listener_keeps (t : ListType) p :
  match t with
  | active => status_eqb (Project.status p) Active
  | finished => status_eqb (Project.status p) Finished
  end = belongs t p.
Proof. now destruct t. Qed.

(** The listener of a list view whose <ul> is the one that its list id
    finds: the view gets a new array with the references of the projects of
    its category, and its <ul> holds their items and nothing else. *)
Lemma listener_renders (this : nat) (a : ref) w f u (xs : list ref)
    (ps : list Project.t) :
  lists w !! this = Some f ->
  document w !! ul f = Some u ->
  ul_id u = ProjectList.listId (type f) ->
  getElementById (ProjectList.listId (type f)) w = Some (ul f) ->
  store w !! a = Some (Array xs) ->
  resolves w xs ps ->
  ProjectList.listener this a w
  = (Normal tt,
     set_document (fun doc =>
         <[ul f := {| ul_id := ProjectList.listId (type f);
                      children := map item (List.filter (belongs (type f)) ps) |}]> doc)
       (set_lists (fun ls =>
            <[this := {| type := type f; assignedProjects := List.length (store w);
                         ul := ul f |}]> ls)
          (set_store (fun st => st ++ [Array (select (belongs (type f)) xs ps)]) w))).
Proof.
  intros Hf Hu Hid Hel Ha Hps.
  unfold ProjectList.listener, Array_filter.
  unfold bind at 1. unfold fields_of at 1. rewrite Hf.
  unfold bind at 1. unfold bind at 1. unfold items_of at 1. rewrite Ha.
  unfold bind at 1.
  rewrite (filter_projects_resolved _ xs ps w Hps).
  rewrite (select_ext _ (belongs (type f))) by (intros; apply listener_keeps).
  unfold alloc at 1. unfold bind at 1. unfold modify at 1.
  set (sel := select (belongs (type f)) xs ps).
  set (w2 := set_lists _ (set_store _ w)).
  pose proof (lookup_lt_Some _ _ _ Hf) as Hlt.
  pose proof (lookup_lt_Some _ _ _ Hu) as Hult.
  assert (Hf2 : lists w2 !! this
                = Some {| type := type f; assignedProjects := List.length (store w);
                          ul := ul f |}).
  { subst w2. destruct w; simpl in *. now apply list_lookup_insert_eq. }
  assert (Hel2 : getElementById (ProjectList.listId (type f)) w2 = Some (ul f)).
  { subst w2. destruct w; exact Hel. }
  unfold ProjectList.renderProjects.
  unfold bind at 1. unfold fields_of at 1. rewrite Hf2.
  unfold bind at 1. unfold get at 1. cbn [type assignedProjects ul].
  rewrite Hel2.
  unfold bind at 1. unfold set_children at 1. unfold modify at 1.
  set (w3 := set_document _ w2).
  assert (Hdoc3 : document w3
                  = <[ul f := {| ul_id := ul_id u; children := [] |}]> (document w)).
  { subst w3 w2. destruct w; simpl in *. now rewrite Hu. }
  assert (Hst3 : store w3 = store w ++ [Array sel]).
  { subst w3 w2. destruct w; reflexivity. }
  unfold bind at 1. unfold items_of at 1.
  rewrite Hst3, lookup_alloc_new.
  assert (Hu3 : document w3 !! ul f = Some {| ul_id := ul_id u; children := [] |}).
  { rewrite Hdoc3. now apply list_lookup_insert_eq. }
  rewrite (items_appended sel (List.filter (belongs (type f)) ps) w3 (ul f)
             {| ul_id := ul_id u; children := [] |}).
  - f_equal. subst w3 w2. destruct w; unfold set_document, set_lists, set_store;
      simpl in *. rewrite Hu, list_insert_insert_eq, Hid. reflexivity.
  - unfold resolves. eapply Forall2_impl; [apply (select_resolved _ _ _ _ Hps) |].
    intros r p Hr. rewrite Hst3. now apply lookup_alloc_old.
  - exact Hu3.
  - simpl. rewrite Hid.
    replace w3 with (set_document (fun doc =>
                       <[ul f := {| ul_id := ul_id u; children := [] |}]> doc) w2).
    + rewrite (getElementById_insert _ _ _ u); [exact Hel2 | | reflexivity].
      subst w2. destruct w; exact Hu.
    + subst w3 w2. destruct w; unfold set_document; simpl in *. now rewrite Hu.
Qed.

End Render.

(** * The page *)

Section Page.

Implicit Types (w : World) (rt : Runtime) (p : Project.t).

Lemma select_all keep (xs : list ref) (ps : list Project.t) :
  List.length xs = List.length ps ->
  Forall (fun p => keep p = true) ps -> select keep xs ps = xs.
Proof.
  revert ps. induction xs as [|x xs IH]; intros [|p ps] Hlen H; try discriminate;
    [reflexivity |].
  apply Forall_cons in H as [Hp H]. simpl. rewrite Hp, IH; auto.
Qed.

Lemma select_none keep (xs : list ref) (ps : list Project.t) :
  Forall (fun p => keep p = false) ps -> select keep xs ps = [].
Proof.
  revert ps. induction xs as [|x xs IH]; intros [|p ps] H; try reflexivity.
  apply Forall_cons in H as [Hp H]. simpl. rewrite Hp. auto.
Qed.

Lemma filter_all keep (ps : list Project.t) :
  Forall (fun p => keep p = true) ps -> List.filter keep ps = ps.
Proof.
  induction 1 as [|p ps Hp _ IH]; simpl; [reflexivity |]. now rewrite Hp, IH.
Qed.

Lemma filter_none keep (ps : list Project.t) :
  Forall (fun p => keep p = false) ps -> List.filter keep ps = [].
Proof.
  induction 1 as [|p ps Hp _ IH]; simpl; [reflexivity |]. now rewrite Hp.
Qed.

Lemma all_active_belong (ps : list Project.t) :
  Forall (fun p => Project.status p = Active) ps ->
  Forall (fun p => belongs active p = true) ps
  /\ Forall (fun p => belongs finished p = false) ps.
Proof.
  intros H. split; eapply Forall_impl; try exact H;
    intros p Hp; unfold belongs; now rewrite Hp.
Qed.

(** After the script: an empty page. *)
Lemma main_page rand :
  exists rt, main (boot rand) = (Normal 0%nat, rt) /\ page_holds rt [] [].
Proof.
  eexists. split; [reflexivity |].
  repeat split; try reflexivity; try constructor.
  - intros r p H. cbn in H. destruct r as [|[|[|r]]]; discriminate.
  - exists 1%nat, 2%nat. repeat split; reflexivity.
Qed.

Lemma resolves_store w w' (xs : list ref) (ps : list Project.t) :
  (forall r p, store w !! r = Some (Instance p) -> store w' !! r = Some (Instance p)) ->
  resolves w xs ps -> resolves w' xs ps.
Proof. intros H Hr. eapply Forall2_impl; [exact Hr |]. intros r p. apply H. Qed.

(** One more project on the page: what a call of [addProject] on the
    [projectState] of the page does. *)
Lemma addProject_on_page rt (rs : list ref) (ps : list Project.t)
    (t d : jsstring) (n : number) :
  page_holds rt rs ps ->
  exists rt',
    Call.addProject 0%nat t d n rt = (Normal tt, rt')
    /\ page_holds rt' (rs ++ [List.length (store (world rt))])
         (ps ++ [Project.new (Number.to_string (random (world rt) (drawn (world rt))))
                   t d n Active])
    /\ form (world rt') = form (world rt)
    /\ alerts (world rt') = alerts (world rt).
Proof.
  intros (Hst & H0 & Hres & Hact & Hall & a0 & a1 & Hls & Ha0 & Ha1 & Hdoc).
  destruct rt as [sts w]; cbn [statics world] in *. subst sts.
  set (pnew := Project.new (Number.to_string (random w (drawn w))) t d n Active).
  set (np := List.length (store w)).
  set (rs' := rs ++ [np]). set (ps' := ps ++ [pnew]).
  unfold Call.addProject, Call.deref. unfold bind at 1.
  cbn [statics ProjectState.constructed lookup list_lookup].
  unfold in_world; cbn [world statics].
  rewrite (addProject_loop the_projectState t d n w rs H0).
  rewrite (stored_world the_projectState t d n w rs H0). cbn [snd].
  fold pnew np rs'. cbn [ProjectState.projects the_projectState ProjectState.listeners].
  set (w0 := set_store _ (set_store _ (set_drawn S w))).
  pose proof (lookup_lt_Some _ _ _ H0) as Hlt0.
  assert (Hs0 : store w0 = <[0%nat := Array rs']> (store w ++ [Instance pnew]))
    by (subst w0; destruct w; reflexivity).
  assert (H00 : store w0 !! 0%nat = Some (Array rs')).
  { rewrite Hs0. apply list_lookup_insert_eq. rewrite length_app. lia. }
  assert (Hinst : forall r p, store w !! r = Some (Instance p) ->
                              store w0 !! r = Some (Instance p)).
  { intros r p Hr. rewrite Hs0. rewrite list_lookup_insert_ne.
    - now apply lookup_alloc_old.
    - intros <-. rewrite H0 in Hr. discriminate. }
  assert (Hnew : store w0 !! np = Some (Instance pnew)).
  { rewrite Hs0. rewrite list_lookup_insert_ne by (subst np; lia).
    apply lookup_alloc_new. }
  assert (Hres0 : resolves w0 rs' ps').
  { apply Forall2_app; [exact (resolves_store _ _ _ _ Hinst Hres) |].
    constructor; [exact Hnew | constructor]. }
  assert (Hact' : Forall (fun p => Project.status p = Active) ps').
  { apply Forall_app. split; [exact Hact | repeat constructor]. }
  destruct (all_active_belong ps' Hact') as [Hyes Hno].
  assert (Hlen' : List.length rs' = List.length ps') by exact (Forall2_length _ _ _ Hres0).
  (* the active view *)
  cbn [for_of]. unfold bind at 1. unfold bind at 1.
  rewrite (Array_spread_array 0%nat w0 rs' H00).
  set (w1 := set_store _ w0).
  rewrite (listener_renders 0%nat (List.length (store w0)) w1
             {| type := active; assignedProjects := a0; ul := 0%nat |}
             {| ul_id := ProjectList.listId active; children := map item ps |}
             rs' ps').
  2: { subst w1 w0. destruct w; cbn in *. now rewrite Hls. }
  2: { subst w1 w0. destruct w; cbn in *. now rewrite Hdoc. }
  2: reflexivity.
  2: { unfold getElementById. subst w1 w0. destruct w; cbn in *. now rewrite Hdoc. }
  2: { subst w1. destruct w0; cbn. apply lookup_alloc_new. }
  2: { apply resolves_alloc. exact Hres0. }
  cbn [type ul].
  rewrite (select_all _ _ _ Hlen' Hyes), (filter_all _ _ Hyes).
  set (w1' := set_document _ _).
  assert (Hs1 : store w1' = (store w0 ++ [Array rs']) ++ [Array rs'])
    by (subst w1' w1; destruct w0; reflexivity).
  assert (H10 : store w1' !! 0%nat = Some (Array rs')).
  { rewrite Hs1. now do 2 apply lookup_alloc_old. }
  (* the finished view *)
  unfold bind at 1. unfold bind at 1.
  rewrite (Array_spread_array 0%nat w1' rs' H10).
  set (w2 := set_store _ w1').
  rewrite (listener_renders 1%nat (List.length (store w1')) w2
             {| type := finished; assignedProjects := a1; ul := 1%nat |}
             {| ul_id := ProjectList.listId finished; children := [] |}
             rs' ps').
  2: { subst w2 w1' w1 w0. destruct w; cbn in *. now rewrite Hls. }
  2: { subst w2 w1' w1 w0. destruct w; cbn in *. now rewrite Hdoc. }
  2: reflexivity.
  2: { unfold getElementById. subst w2 w1' w1 w0. destruct w; cbn in *.
       now rewrite Hdoc. }
  2: { subst w2. destruct w1'; cbn. apply lookup_alloc_new. }
  2: { apply resolves_alloc.
       apply (resolves_store w0); [| exact Hres0].
       intros r p Hr. rewrite Hs1. now do 2 apply lookup_alloc_old. }
  cbn [type ul].
  rewrite (select_none _ _ _ Hno), (filter_none _ _ Hno).
  set (wf := set_document _ _).
  assert (Hsf : store wf
                = (((store w0 ++ [Array rs']) ++ [Array rs']) ++ [Array rs']) ++ [Array []]).
  { subst wf w2. destruct w1'; cbn in *. now rewrite Hs1. }
  assert (Hext : forall r o, store w0 !! r = Some o -> store wf !! r = Some o).
  { intros r o Hr. rewrite Hsf. now do 4 apply lookup_alloc_old. }
  cbn [ret for_of]. eexists. split; [reflexivity |].
  unfold page_holds. cbn [statics world].
  split; [| split].
  - split; [reflexivity |].
    split; [now apply Hext |].
    split; [exact (resolves_store _ _ _ _ (fun r p => Hext r (Instance p)) Hres0) |].
    split; [exact Hact' |].
    split.
    + intros r p. rewrite Hsf, Hs0. rewrite !lookup_app_Some.
      intros [[[[Hr | [_ Hr]] | [_ Hr]] | [_ Hr]] | [_ Hr]].
      * apply list_lookup_insert_Some in Hr as [(_ & Hr & _) | (Hne & Hr)];
          [discriminate |].
        apply lookup_app_Some in Hr as [Hr | [Hge Hr]].
        -- apply elem_of_app. left. eauto.
        -- apply elem_of_app. right. apply list_elem_of_singleton.
           apply list_lookup_singleton_Some in Hr as [Hr _]. subst np. lia.
      * apply list_lookup_singleton_Some in Hr as [_ Hr]. discriminate.
      * apply list_lookup_singleton_Some in Hr as [_ Hr]. discriminate.
      * apply list_lookup_singleton_Some in Hr as [_ Hr]. discriminate.
      * apply list_lookup_singleton_Some in Hr as [_ Hr]. discriminate.
    + exists (List.length (store w1)), (List.length (store w2)).
      split; [subst wf w2 w1' w1 w0; destruct w; cbn in *; now rewrite Hls |].
      split.
      { rewrite Hsf. do 2 apply lookup_alloc_old.
        replace (List.length (store w1)) with (List.length (store w0 ++ [Array rs']))
          by (subst w1; destruct w0; reflexivity).
        apply lookup_alloc_new. }
      split.
      { rewrite Hsf.
        replace (List.length (store w2))
          with (List.length (((store w0 ++ [Array rs']) ++ [Array rs']) ++ [Array rs']))
          by (subst w2; destruct w1'; cbn in *; now rewrite Hs1).
        apply lookup_alloc_new. }
      subst wf w2 w1' w1 w0. destruct w; cbn in *. rewrite Hdoc. reflexivity.
  - subst wf w2 w1' w1 w0. destruct w; reflexivity.
  - subst wf w2 w1' w1 w0. destruct w; reflexivity.
Qed.

Lemma page_holds_same rt rt' (rs : list ref) (ps : list Project.t) :
  statics rt' = statics rt ->
  store (world rt') = store (world rt) ->
  lists (world rt') = lists (world rt) ->
  document (world rt') = document (world rt) ->
  page_holds rt rs ps -> page_holds rt' rs ps.
Proof.
  intros E1 E2 E3 E4. unfold page_holds, resolves. now rewrite E1, E2, E3, E4.
Qed.

(** Handling an event keeps the page in shape; the projects it holds
    afterwards are the ones before, followed by at most one new one with a
    headcount from 1 to 5. *)
Lemma handle_page rt (rs : list ref) (ps : list Project.t) (e : Event) :
  page_holds rt rs ps ->
  exists (rs' : list ref) (ps' : list Project.t),
    page_holds (snd (handle 0%nat e rt)) (rs ++ rs') (ps ++ ps')
    /\ Forall (fun p => in_bounds (Project.people p)) ps'.
Proof.
  intros H. destruct e as [t d p|]; cbn [handle].
  - exists [], []. rewrite !app_nil_r. split; [| constructor].
    eapply page_holds_same; [.. | exact H]; destruct rt as [s w]; destruct w; reflexivity.
  - rewrite submitHandler_cases.
    destruct (valid_input _ _ _) eqn:V.
    + destruct (addProject_on_page rt rs ps (titleInputEl (form (world rt)))
                  (descriptionInputEl (form (world rt)))
                  (Number.of_string (peopleInputEl (form (world rt)))) H)
        as (rt' & -> & H' & _).
      eexists [_], [_]. cbn [snd]. split.
      * eapply page_holds_same; [.. | exact H']; destruct rt' as [s w]; destruct w;
          reflexivity.
      * repeat constructor; cbn [Project.people];
          apply valid_input_iff in V; unfold Number.ge in V; tauto.
    + exists [], []. rewrite !app_nil_r. split; [| constructor].
      eapply page_holds_same; [.. | exact H]; destruct rt as [s w]; destruct w; reflexivity.
Qed.

Lemma dispatch_page (es : list Event) :
  forall rt (rs : list ref) (ps : list Project.t),
    page_holds rt rs ps ->
    Forall (fun p => in_bounds (Project.people p)) ps ->
    exists (rs' : list ref) (ps' : list Project.t),
      page_holds (dispatch 0%nat es rt) rs' ps'
      /\ Forall (fun p => in_bounds (Project.people p)) ps'.
Proof.
  unfold dispatch. induction es as [|e es IH]; intros rt rs ps H Hb; simpl.
  - eauto.
  - destruct (handle_page rt rs ps e H) as (rs1 & ps1 & H1 & Hb1).
    eapply IH; [exact H1 |]. apply Forall_app. auto.
Qed.

(** Every state of the page holds its projects as [page_holds] says,
    and each of them has a headcount from 1 to 5. *)
Lemma page_invariant rand (es : list Event) :
  exists (rs : list ref) (ps : list Project.t),
    page_holds (page rand es) rs ps
    /\ Forall (fun p => in_bounds (Project.people p)) ps.
Proof.
  unfold page. destruct (main_page rand) as (rt & -> & H).
  eapply dispatch_page; [exact H | constructor].
Qed.

Lemma page_project rt (rs : list ref) (ps : list Project.t) r p :
  page_holds rt rs ps -> store (world rt) !! r = Some (Instance p) -> p ∈ ps.
Proof.
  intros (_ & _ & Hres & _ & Hall & _) Hr.
  apply Hall in Hr as Hin. apply list_elem_of_lookup in Hin as [i Hi].
  destruct (Forall2_lookup_l _ _ _ _ _ Hres Hi) as (p' & Hp' & Hr').
  simpl in Hr'. pose proof (eq_trans (eq_sym Hr) Hr') as E. injection E as ->. apply list_elem_of_lookup. eauto.
Qed.

(** C9.  In every state of the page, no project is Finished: each
    Project of the store is Active, the internal list of the ProjectState
    holds Active projects only, and the finished view has an empty array of
    assigned projects and an empty <ul>. *)
Theorem finished_list_stays_empty (rand : nat -> number) (es : list Event) :
  let w := world (page rand es) in
  (forall r p, store w !! r = Some (Instance p) -> Project.status p = Active)
  /\ (exists (rs : list ref) (ps : list Project.t),
        ProjectState.constructed (statics (page rand es)) = [the_projectState]
        /\ store w !! ProjectState.projects the_projectState = Some (Array rs)
        /\ resolves w rs ps
        /\ Forall (fun p => Project.status p <> Finished) ps)
  /\ (exists f u,
        lists w !! 1%nat = Some f /\ type f = finished
        /\ store w !! assignedProjects f = Some (Array [])
        /\ document w !! ul f = Some u
        /\ ul_id u = ProjectList.listId finished /\ children u = []).
Proof.
  intros w. destruct (page_invariant rand es) as (rs & ps & H & _).
  pose proof H as (Hst & H0 & Hres & Hact & Hall & a0 & a1 & Hls & Ha0 & Ha1 & Hdoc).
  fold w in H0, Hres, Hall, Hls, Ha0, Ha1, Hdoc.
  split; [| split].
  - intros r p Hr. pose proof (page_project _ _ _ _ _ H Hr) as Hin.
    rewrite Forall_forall in Hact. now apply Hact.
  - exists rs, ps. rewrite Hst. repeat split; auto.
    eapply Forall_impl; [exact Hact |]. intros p Hp. rewrite Hp. discriminate.
  - eexists _, _. rewrite Hls, Hdoc. cbn. repeat split; eauto.
Qed.

(** C6, as the code has it.  In every state of the page, each project
    that the form has created has a headcount that is a number from 1 to 5,
    both included; it need not be an integer. *)
Theorem submitted_headcount_in_bounds (rand : nat -> number) (es : list Event) :
  let w := world (page rand es) in
  exists (rs : list ref) (ps : list Project.t),
    store w !! ProjectState.projects the_projectState = Some (Array rs)
    /\ resolves w rs ps
    /\ (forall r p, store w !! r = Some (Instance p) -> p ∈ ps)
    /\ Forall (fun p => Number.le (Number.of_Z 1) (Project.people p) = true
                        /\ Number.le (Project.people p) (Number.of_Z 5) = true) ps.
Proof.
  intros w. destruct (page_invariant rand es) as (rs & ps & H & Hb).
  exists rs, ps. pose proof H as (_ & H0 & Hres & _).
  repeat split; auto. intros r p. apply (page_project _ _ _ _ _ H).
Qed.

(** C6, as stated, fails: "2.5" in the people field passes the rule
    set, and the project is created with the headcount 2.5. *)
Lemma fractional_headcount_accepted :
  let w := world (page sevenths [Fill (js "Tea") (js "Boil water") (js "2.5"); Submit]) in
  exists p,
    store w !! 3%nat = Some (Instance p)
    /\ Project.title p = js "Tea"
    /\ Project.people p = Number.Fin (5 # 2)
    /\ is_integer (Project.people p) = false.
Proof. eexists. vm_compute. repeat split; reflexivity. Qed.

(** The list views of the page show the projects: the active one all of
    them, in the order of their creation, the finished one none. *)
Lemma page_lists (rand : nat -> number) (es : list Event) :
  exists (rs : list ref) (ps : list Project.t),
    store (world (page rand es)) !! 0%nat = Some (Array rs)
    /\ resolves (world (page rand es)) rs ps
    /\ document (world (page rand es))
       = [ {| ul_id := ProjectList.listId active; children := map item ps |};
           {| ul_id := ProjectList.listId finished; children := [] |} ].
Proof.
  destruct (page_invariant rand es) as (rs & ps & H & _).
  destruct H as (_ & H0 & Hres & _ & _ & a0 & a1 & _ & _ & _ & Hdoc). eauto.
Qed.

End Page.

(** * What the list views show *)

Section Lists.

Lemma shown_title_item (ps : list Project.t) :
  map shown_title (map item ps) = map Project.title ps.
Proof. induction ps as [|p ps IH]; simpl; [reflexivity | now rewrite IH]. Qed.

(** The list view of the single-file version, on any snapshot: after
    the notification its <ul> holds one item per project of its category, in
    the order of the snapshot, and nothing of what it held before; the other
    elements of the page are untouched. *)
Lemma listener_shows_category (this : nat) (a : ref) (w : World)
    (f : ProjectListFields) (u : UlElement) (xs : list ref) (ps : list Project.t) :
  lists w !! this = Some f ->
  document w !! ul f = Some u ->
  ul_id u = ProjectList.listId (type f) ->
  getElementById (ProjectList.listId (type f)) w = Some (ul f) ->
  store w !! a = Some (Array xs) ->
  resolves w xs ps ->
  exists w' u',
    ProjectList.listener this a w = (Normal tt, w')
    /\ document w' !! ul f = Some u'
    /\ children u' = map item (List.filter (belongs (type f)) ps)
    /\ map shown_title (children u')
       = map Project.title (List.filter (belongs (type f)) ps)
    /\ (forall el, el <> ul f -> document w' !! el = document w !! el).
Proof.
  intros Hf Hu Hid Hel Ha Hps.
  rewrite (listener_renders this a w f u xs ps Hf Hu Hid Hel Ha Hps).
  pose proof (lookup_lt_Some _ _ _ Hu) as Hlt.
  eexists _, _. split; [reflexivity |].
  destruct w as [st doc ls fm al rnd dr]; cbn in *.
  split; [now apply list_lookup_insert_eq |]. cbn.
  split; [reflexivity |]. split; [apply shown_title_item |].
  intros el Hne. now apply list_lookup_insert_ne.
Qed.

Lemma listener_shows_category_witness :
  exists w' u',
    ProjectList.listener 1%nat 2%nat mixed_world = (Normal tt, w')
    /\ document w' !! 1%nat = Some u'
    /\ children u' = map item (List.filter (belongs finished)
                                 [ Project.new (js "0.1") (js "Plant") (js "Plant a tree")
                                     (Number.of_Z 1) Active;
                                   Project.new (js "0.2") (js "Paint")
                                     (js "Paint the fence") (Number.of_Z 2) Finished ])
    /\ map shown_title (children u') = [js "Paint"]
    /\ (forall el, el <> 1%nat -> document w' !! el = document mixed_world !! el).
Proof.
  assert (Hres : resolves mixed_world [0%nat; 1%nat]
                   [ Project.new (js "0.1") (js "Plant") (js "Plant a tree")
                       (Number.of_Z 1) Active;
                     Project.new (js "0.2") (js "Paint") (js "Paint the fence")
                       (Number.of_Z 2) Finished ])
    by (repeat constructor).
  exact (listener_shows_category 1%nat 2%nat mixed_world
           {| type := finished; assignedProjects := 4%nat; ul := 1%nat |}
           {| ul_id := ProjectList.listId finished; children := [] |}
           [0%nat; 1%nat] _ eq_refl eq_refl eq_refl eq_refl eq_refl Hres).
Defined.

(** Mixed statuses, both views: the active one shows the Active
    project, the finished one the Finished project. *)
Example mixed_statuses_filtered :
  shown_titles {| statics := statics (boot sevenths);
                  world := snd ((ProjectList.listener 0%nat 2%nat ;;
                                 ProjectList.listener 1%nat 2%nat) mixed_world) |}
  = [[js "Plant"]; [js "Paint"]].
Proof. vm_compute. reflexivity. Qed.

(** C5 on src/app.ts.  After two valid submissions the lists of
    src/app.ts each show the first project twice and then the second: the
    earlier items were not cleared, and the finished list shows the Active
    projects too.  On the same events the lists of the single-file version
    show each project once, in the active list only. *)
Theorem legacy_lists_neither_cleared_nor_filtered :
  shown_titles (legacy_page sevenths two_submissions)
  = [ [js "Build API"; js "Build API"; js "Write docs"];
      [js "Build API"; js "Build API"; js "Write docs"] ]
  /\ shown_titles (page sevenths two_submissions)
     = [ [js "Build API"; js "Write docs"]; [] ].
Proof. split; vm_compute; reflexivity. Qed.

(** The scenario of the specification: a valid submission adds one
    Active project at the end of the active list and clears the inputs; an
    invalid one shows the alert, adds nothing and leaves the inputs. *)
Example scenario_valid :
  let rt := page sevenths [Fill (js "Build API") (js "Backend work") (js "3"); Submit] in
  shown_titles rt = [[js "Build API"]; []]
  /\ form (world rt) = empty_form
  /\ alerts (world rt) = [].
Proof. vm_compute. repeat split; reflexivity. Qed.

Example scenario_invalid :
  let rt := page sevenths [Fill (js "") (js "x") (js "1"); Submit] in
  shown_titles rt = [[]; []]
  /\ form (world rt)
     = {| titleInputEl := js ""; descriptionInputEl := js "x"; peopleInputEl := js "1" |}
  /\ alerts (world rt) = [js "Invalid input, please try again"].
Proof. vm_compute. repeat split; reflexivity. Qed.

End Lists.

(** * What the listeners of the views leave alone *)

Section Effects.

Context {R : World -> World -> Prop} `{!PreOrder R}.

Lemma steps_ret {A} (a : A) : steps R (ret a).
Proof. intros w. simpl. reflexivity. Qed.

Lemma steps_throw {A} : steps R (@throw World A).
Proof. intros w. simpl. reflexivity. Qed.

Lemma steps_get : steps R get.
Proof. intros w. simpl. reflexivity. Qed.

Lemma steps_bind {A B} (m : M World A) (f : A -> M World B) :
  steps R m -> (forall a, steps R (f a)) -> steps R (bind m f).
Proof.
  intros Hm Hf w. unfold bind. specialize (Hm w).
  destruct (m w) as [[a|] w1]; simpl in *; [| exact Hm].
  etransitivity; [exact Hm | apply Hf].
Qed.

Lemma steps_for_of {A} (xs : list A) (body : A -> M World unit) :
  (forall x, steps R (body x)) -> steps R (for_of xs body).
Proof.
  intros H. induction xs as [|x xs IH]; simpl.
  - apply steps_ret.
  - apply steps_bind; auto.
Qed.

Lemma steps_modify (f : World -> World) :
  (forall w, R w (f w)) -> steps R (modify f).
Proof. intros H w. apply H. Qed.

Lemma steps_read {A} (m : M World A) :
  (forall w, snd (m w) = w) -> steps R m.
Proof. intros H w. rewrite H. reflexivity. Qed.

End Effects.

Section Listeners.

Global Instance store_extends_preorder : PreOrder store_extends.
Proof.
  split.
  - intros w. exists []. now rewrite app_nil_r.
  - intros w1 w2 w3 [m1 H1] [m2 H2]. exists (m1 ++ m2).
    now rewrite H2, H1, app_assoc.
Qed.

Global Instance same_random_preorder : PreOrder same_random.
Proof.
  split.
  - intros w. split; reflexivity.
  - intros w1 w2 w3 [H1 H1'] [H2 H2']. split; congruence.
Qed.

Lemma items_of_reads a w : snd (items_of a w) = w.
Proof. unfold items_of. now destruct (store w !! a) as [[]|]. Qed.

Lemma project_of_reads r w : snd (project_of r w) = w.
Proof. unfold project_of. now destruct (store w !! r) as [[]|]. Qed.

Lemma fields_of_reads this w : snd (fields_of this w) = w.
Proof. unfold fields_of. now destruct (lists w !! this). Qed.

Lemma store_extends_respected : respected store_extends.
Proof.
  split.
  - intros o w. exists [o]. now destruct w.
  - intros f w. exists []. destruct w; simpl. now rewrite app_nil_r.
  - intros f w. exists []. destruct w; simpl. now rewrite app_nil_r.
Qed.

Lemma same_random_respected : respected same_random.
Proof. split; intros; destruct w; split; reflexivity. Qed.

Section Respected.

Context {R : World -> World -> Prop} `{!PreOrder R} (HR : respected R).

Lemma steps_alloc o : steps R (alloc o).
Proof. intros w. apply (respects_alloc R HR). Qed.

Lemma steps_filter_projects keep (xs : list ref) : steps R (filter_projects keep xs).
Proof.
  induction xs as [|x xs IH]; simpl; [apply steps_ret |].
  apply steps_bind; [apply steps_read, project_of_reads | intros p].
  apply steps_bind; [exact IH | intros rest]. apply steps_ret.
Qed.

Lemma steps_Array_filter a keep : steps R (Array_filter a keep).
Proof.
  apply steps_bind; [apply steps_read, items_of_reads | intros xs].
  apply steps_bind; [apply steps_filter_projects | intros kept]. apply steps_alloc.
Qed.

Lemma steps_set_children el f : steps R (set_children el f).
Proof. apply steps_modify. intros w. apply (respects_document R HR). Qed.

Lemma steps_Component hostElId insertAtStart newElementId :
  steps R (Component.constructor hostElId insertAtStart newElementId).
Proof.
  apply steps_bind; [apply steps_get | intros w].
  destruct (getElementById hostElId w); [| apply steps_throw].
  apply steps_bind; [apply steps_set_children | intros ?]. apply steps_ret.
Qed.

Lemma steps_ProjectItem hostId project : steps R (ProjectItem.constructor hostId project).
Proof.
  apply steps_bind; [apply steps_read, project_of_reads | intros p].
  apply steps_bind; [apply steps_Component | intros placed].
  apply steps_bind; [apply steps_read, project_of_reads | intros p'].
  apply steps_set_children.
Qed.

Lemma steps_renderProjects this : steps R (ProjectList.renderProjects this).
Proof.
  apply steps_bind; [apply steps_read, fields_of_reads | intros f].
  apply steps_bind; [apply steps_get | intros w].
  destruct (getElementById _ w); [| apply steps_throw].
  apply steps_bind; [apply steps_set_children | intros ?].
  apply steps_bind; [apply steps_read, items_of_reads | intros prjs].
  apply steps_for_of. intros prjItem.
  apply steps_bind; [apply steps_get | intros w'].
  destruct (document w' !! ul f); [apply steps_ProjectItem | apply steps_throw].
Qed.

Lemma steps_listener this a : steps R (ProjectList.listener this a).
Proof.
  apply steps_bind; [apply steps_read, fields_of_reads | intros f].
  apply steps_bind; [apply steps_Array_filter | intros relevant].
  apply steps_bind; [| intros ?; apply steps_renderProjects].
  apply steps_modify. intros w. apply (respects_lists R HR).
Qed.

Lemma steps_legacy_renderProjects this : steps R (Legacy.renderProjects this).
Proof.
  apply steps_bind; [apply steps_read, fields_of_reads | intros f].
  apply steps_bind; [apply steps_get | intros w].
  apply steps_bind; [apply steps_read, items_of_reads | intros prjs].
  apply steps_for_of. intros prjItem.
  apply steps_bind; [apply steps_read, project_of_reads | intros p].
  destruct (getElementById _ w); [apply steps_set_children | apply steps_throw].
Qed.

Lemma steps_legacy_listener this a : steps R (Legacy.listener this a).
Proof.
  apply steps_bind; [apply steps_read, fields_of_reads | intros f].
  apply steps_bind; [| intros ?; apply steps_legacy_renderProjects].
  apply steps_modify. intros w. apply (respects_lists R HR).
Qed.

End Respected.

Lemma store_extends_lookup w w' (r : ref) (o : object) :
  store_extends w w' -> store w !! r = Some o -> store w' !! r = Some o.
Proof. intros [more ->] H. now apply lookup_app_l_Some. Qed.

(** The listeners that the list views register, in the single-file
    version and in src/app.ts, write to no object of the store, not even
    to the array they are given: whether they return or throw, every object
    is afterwards what it was, so they meet the condition [frame] under
    which [addProject] keeps its list; and they draw no random number. *)
Theorem view_listeners_keep_the_store (this : nat) :
  (forall a w r o,
      store w !! r = Some o ->
      store (snd (ProjectList.listener this a w)) !! r = Some o
      /\ store (snd (Legacy.listener this a w)) !! r = Some o)
  /\ frame (ProjectList.listener this)
  /\ frame (Legacy.listener this)
  /\ (forall a w,
        same_random w (snd (ProjectList.listener this a w))
        /\ same_random w (snd (Legacy.listener this a w))).
Proof.
  assert (H : forall a w r o,
             store w !! r = Some o ->
             store (snd (ProjectList.listener this a w)) !! r = Some o
             /\ store (snd (Legacy.listener this a w)) !! r = Some o).
  { intros a w r o Hr. split; eapply store_extends_lookup; try exact Hr.
    - apply (steps_listener store_extends_respected).
    - apply (steps_legacy_listener store_extends_respected). }
  split; [exact H |]. split; [| split].
  - intros a w r o _ Hr. now apply H.
  - intros a w r o _ Hr. now apply H.
  - intros a w. split.
    + apply (steps_listener same_random_respected).
    + apply (steps_legacy_listener same_random_respected).
Qed.

End Listeners.

(** * More on validation and on the form *)

Section Blank.

Lemma trimStart_blank s : JsString.trimStart s = [] <-> blank s.
Proof.
  unfold blank. induction s as [|c s IH]; simpl.
  - split; [constructor | reflexivity].
  - destruct (JsString.isWhiteSpace c) eqn:E.
    + rewrite IH. split; [now constructor | now intros [_ H]%Forall_cons].
    + split; [discriminate |]. intros [H _]%Forall_cons. congruence.
Qed.

Lemma trimStart_head s c r :
  JsString.trimStart s = c :: r -> JsString.isWhiteSpace c = false.
Proof.
  induction s as [|x s IH]; simpl; [discriminate |].
  destruct (JsString.isWhiteSpace x) eqn:E; [exact IH |].
  intros H. injection H as -> _. exact E.
Qed.

Lemma trim_blank s : JsString.trim s = [] <-> blank s.
Proof.
  split.
  - unfold JsString.trim, JsString.trimEnd. intros H.
    apply (f_equal (@rev N)) in H. rewrite rev_involutive in H. simpl in H.
    apply trimStart_blank in H.
    destruct (JsString.trimStart s) as [|c r] eqn:E; [now apply trimStart_blank |].
    apply trimStart_head in E. unfold blank in H.
    rewrite Forall_forall in H.
    assert (Hc : c ∈ rev (c :: r)).
    { apply list_elem_of_In, in_rev. rewrite rev_involutive. now left. }
    apply H in Hc. congruence.
  - intros H. unfold JsString.trim. apply trimStart_blank in H. now rewrite H.
Qed.

Lemma not_blank s :
  ~ blank s <-> exists c, c ∈ s /\ JsString.isWhiteSpace c = false.
Proof.
  unfold blank. rewrite <- Exists_Forall_neg by
    (intros c; destruct (JsString.isWhiteSpace c); auto).
  rewrite Exists_exists. split; intros (c & Hc & H); exists c; split; auto;
    destruct (JsString.isWhiteSpace c); congruence.
Qed.

(** [required] on a string: it passes exactly when some code unit of the
    string is not white space; a string of white space only, the empty one
    included, fails whatever else the rule set holds. *)
Theorem required_rejects_blank_strings (s : jsstring) :
  (validate (with_required true (bare (Str s))) = true
   <-> exists c, c ∈ s /\ JsString.isWhiteSpace c = false)
  /\ (forall r : Validatable.t,
        Validatable.value_ r = Str s -> Validatable.required r = Some true ->
        blank s -> validate r = false).
Proof.
  split.
  - unfold validate.
    cbn [Validatable.value_ Validatable.required Validatable.minLength
         Validatable.maxLength Validatable.min Validatable.max truthy toString
         with_required bare andb].
    rewrite nonempty_check, <- not_blank.
    split; intros H; contradict H; now apply trim_blank.
  - intros [v req a b c e]; cbn. intros -> -> H.
    apply trim_blank in H. unfold validate.
    cbn [Validatable.value_ Validatable.required Validatable.minLength
         Validatable.maxLength Validatable.min Validatable.max truthy toString].
    rewrite H. cbn [JsString.length List.length Nat.eqb negb andb].
    destruct a, b, c, e; reflexivity.
Qed.

End Blank.

Section Gather.

Lemma length_at_least (n : nat) (k : Z) :
  Number.ge (Number.of_nat n) (Number.of_Z k) = true <-> k <= Z.of_nat n.
Proof.
  unfold Number.ge, Number.le, Number.of_nat, Number.of_Z.
  rewrite Qle_bool_iff, <- Zle_Qle. reflexivity.
Qed.

(** A number that is NaN fails every lower and every upper bound, so a
    people field that does not read as a number is turned down: the alert is
    shown and [gatherUserInput] returns nothing. *)
Theorem not_a_number_rejected :
  (forall r : Validatable.t,
      Validatable.value_ r = Num Number.NaN ->
      is_Some (Validatable.min r) \/ is_Some (Validatable.max r) ->
      validate r = false)
  /\ (forall w : World,
        Number.of_string (peopleInputEl (form w)) = Number.NaN ->
        ProjectInput.gatherUserInput w
        = (Normal None,
           set_alerts (fun shown => shown ++ [js "Invalid input, please try again"]) w)).
Proof.
  split.
  - intros [v req a b mn mx]; cbn. intros -> H. unfold validate; cbn.
    destruct mn as [mn|], mx as [mx|];
      [| | | destruct H as [[? H]|[? H]]; discriminate];
      destruct req as [[|]|], a, b; try destruct mn as [|[|]|]; cbn;
      rewrite ?andb_false_r; reflexivity.
  - intros w H. unfold ProjectInput.gatherUserInput, bind, get.
    assert (E : validate (ProjectInput.peopleValidatable (peopleInputEl (form w))) = false).
    { unfold ProjectInput.peopleValidatable, validate; cbn. rewrite H. cbn.
      now rewrite ?andb_false_r. }
    rewrite E. cbn [negb]. rewrite !orb_true_r. reflexivity.
Qed.

(** What [gatherUserInput] accepts: a title that is not blank, a
    description that is not blank and has at least five code units (counted
    before trimming), and a people field that reads as a number from 1 to 5.
    Then it returns the two strings and that number and changes nothing;
    otherwise it returns nothing and the only change is the alert. *)
Theorem gatherUserInput_accepts (w : World) :
  let t := titleInputEl (form w) in
  let d := descriptionInputEl (form w) in
  let n := Number.of_string (peopleInputEl (form w)) in
  let accepted :=
    ~ blank t /\ (~ blank d /\ (5 <= JsString.length d)%nat) /\ in_bounds n in
  (accepted -> ProjectInput.gatherUserInput w = (Normal (Some (t, d, n)), w))
  /\ (~ accepted ->
      ProjectInput.gatherUserInput w
      = (Normal None,
         set_alerts (fun shown => shown ++ [js "Invalid input, please try again"]) w)).
Proof.
  intros t d n accepted.
  assert (Hiff : valid_input t d (peopleInputEl (form w)) = true <-> accepted).
  { rewrite valid_input_iff. unfold accepted, in_bounds. fold n.
    rewrite <- !trim_blank, length_at_least. unfold Number.ge, JsString.length.
    split; intros (H1 & (H2 & H3) & H4 & H5); repeat split; auto; lia. }
  assert (E : ProjectInput.gatherUserInput w
              = if valid_input t d (peopleInputEl (form w))
                then (Normal (Some (t, d, n)), w)
                else (Normal None,
                      set_alerts (fun shown =>
                        shown ++ [js "Invalid input, please try again"]) w)).
  { rewrite valid_input_rules.
    unfold ProjectInput.gatherUserInput, bind, get. fold t d n.
    destruct (validate (ProjectInput.titleValidatable t)),
      (validate (ProjectInput.descriptionValidatable d)),
      (validate (ProjectInput.peopleValidatable (peopleInputEl (form w))));
      reflexivity. }
  rewrite E. split; intros H.
  - apply Hiff in H. now rewrite H.
  - destruct (valid_input t d (peopleInputEl (form w))); [| reflexivity].
    destruct H. now apply Hiff.
Qed.

Lemma gatherUserInput_accepts_witness :
  let w := set_form (fun _ => {| titleInputEl := js "Tea"; descriptionInputEl := js "a    ";
                                  peopleInputEl := js " 2.5 " |}) sample_world in
  ProjectInput.gatherUserInput w
  = (Normal (Some (js "Tea", js "a    ", Number.Fin (5 # 2))), w).
Proof.
  apply (gatherUserInput_accepts
           (set_form (fun _ => {| titleInputEl := js "Tea"; descriptionInputEl := js "a    ";
                                   peopleInputEl := js " 2.5 " |}) sample_world)).
  split; [| split; [split |]].
  - intros H. apply trim_blank in H. discriminate.
  - intros H. apply trim_blank in H. discriminate.
  - simpl. lia.
  - split; reflexivity.
Defined.

End Gather.

(** * More on the page *)

Section Draws.

Lemma same_random_store f w : same_random w (set_store f w).
Proof. destruct w; split; reflexivity. Qed.

(** [addProject] draws one random number, whatever happens in its
    loop, if the listeners draw none. *)
Lemma addProject_draws_once (this : ProjectState.t) (t d : jsstring) (n : number)
    (w : World) :
  (forall l a, l ∈ ProjectState.listeners this -> steps same_random (l a)) ->
  random (snd (ProjectState.addProject this t d n w)) = random w
  /\ drawn (snd (ProjectState.addProject this t d n w)) = S (drawn w).
Proof.
  intros Hl.
  set (rest :=
         (newProject <- alloc (Instance (Project.new
                           (Number.to_string (random w (drawn w))) t d n Active)) ;;
          Array_push (ProjectState.projects this) newProject ;;
          for_of (ProjectState.listeners this) (fun listenerFn =>
            copy <- Array_spread (ProjectState.projects this) ;;
            listenerFn copy))%run).
  assert (E : ProjectState.addProject this t d n w = rest (set_drawn S w))
    by reflexivity.
  assert (Hk : steps same_random rest).
  { subst rest.
    apply steps_bind; [intros w'; apply same_random_store | intros newProject].
    apply steps_bind.
    - apply steps_bind; [apply steps_read, items_of_reads | intros xs].
      apply steps_modify. intros w'. apply same_random_store.
    - intros _. generalize (ProjectState.listeners this) Hl. intros ls Hls.
      induction ls as [|l ls IH]; simpl; [apply steps_ret |].
      apply steps_bind.
      + apply steps_bind.
        * apply steps_bind; [apply steps_read, items_of_reads | intros xs].
          intros w'. apply same_random_store.
        * intros a. apply Hls. now left.
      + intros _. apply IH. intros l' a Hin. apply Hls. now right. }
  rewrite E. destruct (Hk (set_drawn S w)) as [H1 H2].
  rewrite H1, H2. now destruct w.
Qed.

Lemma page_listeners_draw_nothing l a :
  l ∈ ProjectState.listeners the_projectState -> steps same_random (l a).
Proof.
  intros H. apply list_elem_of_In in H. simpl in H.
  destruct H as [<-|[<-|[]]]; apply (steps_listener same_random_respected).
Qed.

Lemma Call_addProject_world (this : nat) ps t d n rt :
  ProjectState.constructed (statics rt) !! this = Some ps ->
  world (snd (Call.addProject this t d n rt))
  = snd (ProjectState.addProject ps t d n (world rt)).
Proof.
  intros H. unfold Call.addProject, Call.deref, bind, in_world. rewrite H.
  now destruct (ProjectState.addProject ps t d n (world rt)).
Qed.

(** One event on the page, exactly. *)
Lemma handle_page_exact rt (rs : list ref) (ps : list Project.t) (e : Event) :
  page_holds rt rs ps ->
  let w := world rt in
  let rt' := snd (handle 0%nat e rt) in
  let w' := world rt' in
  match e with
  | Fill t d p =>
      page_holds rt' rs ps /\ alerts w' = alerts w
      /\ random w' = random w /\ drawn w' = drawn w
      /\ form w' = {| titleInputEl := t; descriptionInputEl := d; peopleInputEl := p |}
  | Submit =>
      if valid_input (titleInputEl (form w)) (descriptionInputEl (form w))
           (peopleInputEl (form w))
      then
        page_holds rt' (rs ++ [List.length (store w)])
          (ps ++ [Project.new (Number.to_string (random w (drawn w)))
                    (titleInputEl (form w)) (descriptionInputEl (form w))
                    (Number.of_string (peopleInputEl (form w))) Active])
        /\ alerts w' = alerts w
        /\ random w' = random w /\ drawn w' = S (drawn w)
        /\ form w' = empty_form
      else
        page_holds rt' rs ps
        /\ alerts w' = alerts w ++ [js "Invalid input, please try again"]
        /\ random w' = random w /\ drawn w' = drawn w
        /\ form w' = form w
  end.
Proof.
  intros H w rt' w'. subst rt' w'. destruct e as [t d p|]; cbn [handle].
  - split; [| destruct rt as [s []]; repeat split; reflexivity].
    eapply page_holds_same; [.. | exact H]; destruct rt as [s []]; reflexivity.
  - rewrite submitHandler_cases. fold w.
    destruct (valid_input _ _ _) eqn:V.
    + pose proof (addProject_draws_once the_projectState (titleInputEl (form w))
                    (descriptionInputEl (form w))
                    (Number.of_string (peopleInputEl (form w))) w
                    page_listeners_draw_nothing) as [Hr Hd].
      destruct (addProject_on_page rt rs ps (titleInputEl (form w))
                  (descriptionInputEl (form w))
                  (Number.of_string (peopleInputEl (form w))) H)
        as (rt1 & E & H' & _ & Hal).
      assert (Ew : world rt1
                   = snd (ProjectState.addProject the_projectState (titleInputEl (form w))
                            (descriptionInputEl (form w))
                            (Number.of_string (peopleInputEl (form w))) w)).
      { subst w. rewrite <- (Call_addProject_world 0%nat).
        - now rewrite E.
        - destruct H as (Hst & _). now rewrite Hst. }
      rewrite E. cbn [snd world]. rewrite <- Ew in Hr, Hd.
      split; [| destruct rt1 as [s []]; cbn in *; repeat split; assumption].
      eapply page_holds_same; [.. | exact H']; destruct rt1 as [s []]; reflexivity.
    + cbn [snd world].
      split; [| destruct rt as [s []]; repeat split; reflexivity].
      eapply page_holds_same; [.. | exact H]; destruct rt as [s []]; reflexivity.
Qed.

(** The record of the page: what [page_holds] says, the number of draws
    and the ids that come from them, and the alerts shown. *)
Lemma dispatch_record (es : list Event) :
  forall rt (rs : list ref) (ps : list Project.t),
    page_holds rt rs ps ->
    exists (rs' : list ref) (ps' : list Project.t),
      let w := world rt in
      let w' := world (dispatch 0%nat es rt) in
      page_holds (dispatch 0%nat es rt) (rs ++ rs') (ps ++ ps')
      /\ random w' = random w
      /\ drawn w' = (drawn w + List.length ps')%nat
      /\ map Project.id ps'
         = map (fun k => Number.to_string (random w k))
             (seq (drawn w) (List.length ps'))
      /\ (List.length ps' + List.length (alerts w'))%nat
         = (List.length (alerts w) + submits es)%nat.
Proof.
  unfold dispatch. induction es as [|e es IH]; intros rt rs ps H.
  - exists [], []. cbv zeta. cbn [fold_left List.length map seq]. rewrite !app_nil_r.
    unfold submits. cbn [List.filter List.length].
    split; [exact H |]. repeat split; auto; lia.
  - cbn [fold_left].
    pose proof (handle_page_exact rt rs ps e H) as He. cbv zeta in He.
    set (rt1 := snd (handle 0%nat e rt)) in *.
    destruct e as [t d p|].
    + destruct He as (H1 & Hal & Hr & Hd & _).
      destruct (IH rt1 rs ps H1) as (rs' & ps' & IH1 & IH2 & IH3 & IH4 & IH5).
      exists rs', ps'. cbv zeta. rewrite Hr, Hd, Hal in *.
      split; [exact IH1 |]. repeat split; auto.
    + destruct (valid_input _ _ _).
      * destruct He as (H1 & Hal & Hr & Hd & _).
        destruct (IH rt1 _ _ H1) as (rs' & ps' & IH1 & IH2 & IH3 & IH4 & IH5).
        eexists (_ :: rs'), (_ :: ps'). cbv zeta.
        rewrite Hr, Hd, Hal in *. rewrite <- !app_assoc in IH1.
        split; [exact IH1 |]. split; [exact IH2 |].
        split; [cbn [List.length]; lia |].
        split; [cbn [List.length map seq Project.id]; now rewrite IH4 |].
        unfold submits in *. cbn [List.filter List.length]. lia.
      * destruct He as (H1 & Hal & Hr & Hd & _).
        destruct (IH rt1 _ _ H1) as (rs' & ps' & IH1 & IH2 & IH3 & IH4 & IH5).
        exists rs', ps'. cbv zeta. rewrite Hr, Hd, Hal in *.
        rewrite length_app in IH5. cbn [List.length] in IH5.
        split; [exact IH1 |]. repeat split; auto.
        unfold submits in *. cbn [List.filter List.length]. lia.
Qed.

Lemma page_record (rand : nat -> number) (es : list Event) :
  exists (rs : list ref) (ps : list Project.t),
    let w := world (page rand es) in
    page_holds (page rand es) rs ps
    /\ random w = rand
    /\ drawn w = List.length ps
    /\ map Project.id ps
       = map (fun k => Number.to_string (rand k)) (seq 0 (List.length ps))
    /\ (List.length ps + List.length (alerts w))%nat = submits es.
Proof.
  unfold page. destruct (main_page rand) as (rt & E & H).
  assert (Hw : random (world rt) = rand /\ drawn (world rt) = 0%nat
               /\ alerts (world rt) = []).
  { revert E. cbn. intros E. injection E as <-. repeat split; reflexivity. }
  destruct Hw as (Hr & Hd & Hal). rewrite E.
  destruct (dispatch_record es rt [] [] H) as (rs & ps & H1 & H2 & H3 & H4 & H5).
  exists rs, ps. cbv zeta in *. rewrite Hr, Hd, Hal in *. cbn in H5.
  split; [exact H1 |]. repeat split; auto.
Qed.

(** The ids of the projects are the random numbers drawn, in their
    string form and in the order of creation: the k-th project of the page
    has the id of the k-th draw, and one number is drawn per project.  So two
    projects have the same id as soon as Math.random repeats itself. *)
Theorem project_ids_follow_draws (rand : nat -> number) (es : list Event) :
  let w := world (page rand es) in
  exists (rs : list ref) (ps : list Project.t),
    store w !! 0%nat = Some (Array rs)
    /\ resolves w rs ps
    /\ drawn w = List.length ps
    /\ map Project.id ps
       = map (fun k => Number.to_string (rand k)) (seq 0 (List.length ps))
    /\ (forall i j p q,
          ps !! i = Some p -> ps !! j = Some q -> rand i = rand j ->
          Project.id p = Project.id q).
Proof.
  intros w. destruct (page_record rand es) as (rs & ps & H & _ & Hd & Hid & _).
  exists rs, ps. destruct H as (_ & H0 & Hres & _).
  repeat split; auto.
  intros i j p q Hi Hj E.
  assert (Hget : forall k x, ps !! k = Some x ->
                             Project.id x = Number.to_string (rand k)).
  { intros k x Hk.
    assert (Hm : map Project.id ps !! k = Some (Project.id x))
      by (rewrite list_lookup_fmap, Hk; reflexivity).
    rewrite Hid, list_lookup_fmap in Hm.
    pose proof (lookup_lt_Some _ _ _ Hk) as Hlt.
    rewrite lookup_seq_lt in Hm by exact Hlt. cbn in Hm. congruence. }
  rewrite (Hget i p Hi), (Hget j q Hj). now rewrite E.
Qed.

(** Every submission counts once: it adds one project or shows one
    alert, never both and never neither; filling in the inputs does
    neither.  So the projects stored and the alerts shown are together as
    many as the submissions. *)
Theorem every_submit_adds_or_alerts (rand : nat -> number) (es : list Event) :
  let w := world (page rand es) in
  exists rs : list ref,
    store w !! 0%nat = Some (Array rs)
    /\ (List.length rs + List.length (alerts w))%nat = submits es.
Proof.
  intros w. destruct (page_record rand es) as (rs & ps & H & _ & _ & _ & Hn).
  exists rs. destruct H as (_ & H0 & Hres & _).
  split; [exact H0 |]. rewrite (Forall2_length _ _ _ Hres). exact Hn.
Qed.

End Draws.

(** * Rendering, in both versions *)

Section Rendering.

Implicit Types (w : World) (f : ProjectListFields) (u : UlElement).


(** A new ProjectItem puts one item last in its host: the id, the title,
    the head count text and the description of the project, and what the host
    held stays before it.  If the project or the host is missing, it throws
    and nothing is changed. *)
Theorem ProjectItem_renders_project (hostId : jsstring) (r : ref) (w : World) :
  match store w !! r, getElementById hostId w with
  | Some (Instance p), Some el =>
      forall u, document w !! el = Some u ->
        ProjectItem.constructor hostId r w
        = (Normal tt,
           set_document (fun doc =>
             <[el := {| ul_id := ul_id u;
                        children := children u
                          ++ [ItemLi (Project.id p) (Project.title p)
                                (ProjectItem.persons p ++ js " assigned")
                                (Project.description p)] |}]> doc) w)
  | _, _ => ProjectItem.constructor hostId r w = (Throw, w)
  end.
Proof.
  destruct (store w !! r) as [[xs|p]|] eqn:Hr.
  - unfold ProjectItem.constructor, bind, project_of. now rewrite Hr.
  - destruct (getElementById hostId w) as [el|] eqn:Hel.
    + intros u Hu. exact (ProjectItem_appended hostId r w p el u Hr Hel Hu).
    + unfold ProjectItem.constructor, Component.constructor, bind, project_of, get.
      now rewrite Hr, Hel.
  - unfold ProjectItem.constructor, bind, project_of. now rewrite Hr.
Qed.

(** [renderProjects] on a view whose <ul> is the one that its list id
    finds. *)
Lemma renderProjects_shows (this : nat) w f u (xs : list ref) (ps : list Project.t) :
  lists w !! this = Some f ->
  document w !! ul f = Some u ->
  ul_id u = ProjectList.listId (type f) ->
  getElementById (ProjectList.listId (type f)) w = Some (ul f) ->
  store w !! assignedProjects f = Some (Array xs) ->
  resolves w xs ps ->
  ProjectList.renderProjects this w
  = (Normal tt,
     set_document (fun doc =>
       <[ul f := {| ul_id := ProjectList.listId (type f);
                    children := map item ps |}]> doc) w).
Proof.
  intros Hf Hu Hid Hel Ha Hps.
  pose proof (lookup_lt_Some _ _ _ Hu) as Hult.
  unfold ProjectList.renderProjects.
  unfold bind at 1. unfold fields_of at 1. rewrite Hf.
  unfold bind at 1. unfold get at 1. rewrite Hel.
  unfold bind at 1. unfold set_children at 1. unfold modify at 1.
  set (w3 := set_document _ w).
  assert (Hdoc3 : document w3
                  = <[ul f := {| ul_id := ul_id u; children := [] |}]> (document w)).
  { subst w3. destruct w; simpl in *. now rewrite Hu. }
  assert (Hst3 : store w3 = store w) by (subst w3; destruct w; reflexivity).
  unfold bind at 1. unfold items_of at 1. rewrite Hst3, Ha.
  rewrite (items_appended xs ps w3 (ul f) {| ul_id := ul_id u; children := [] |}).
  - f_equal. subst w3. destruct w; unfold set_document; simpl in *.
    rewrite Hu, list_insert_insert_eq, Hid. reflexivity.
  - unfold resolves in *. now rewrite Hst3.
  - rewrite Hdoc3. now apply list_lookup_insert_eq.
  - simpl. rewrite Hid.
    replace w3 with (set_document (fun doc =>
                       <[ul f := {| ul_id := ul_id u; children := [] |}]> doc) w).
    + now rewrite (getElementById_insert _ _ _ u).
    + subst w3. destruct w; unfold set_document; simpl in *. now rewrite Hu.
Qed.

(** [renderProjects] replaces what its list shows: afterwards the <ul>
    holds one item per assigned project, in order, and nothing of what it
    held before; so rendering a second time changes nothing more.  Without
    the list element it throws and changes nothing. *)
Theorem renderProjects_replaces (this : nat) w f u (xs : list ref)
    (ps : list Project.t) :
  lists w !! this = Some f ->
  document w !! ul f = Some u ->
  ul_id u = ProjectList.listId (type f) ->
  getElementById (ProjectList.listId (type f)) w = Some (ul f) ->
  store w !! assignedProjects f = Some (Array xs) ->
  resolves w xs ps ->
  let shown := set_document (fun doc =>
                 <[ul f := {| ul_id := ProjectList.listId (type f);
                              children := map item ps |}]> doc) w in
  ProjectList.renderProjects this w = (Normal tt, shown)
  /\ ProjectList.renderProjects this shown = (Normal tt, shown)
  /\ (forall w0 : World,
        lists w0 !! this = Some f ->
        getElementById (ProjectList.listId (type f)) w0 = None ->
        ProjectList.renderProjects this w0 = (Throw, w0)).
Proof.
  intros Hf Hu Hid Hel Ha Hps shown.
  pose proof (lookup_lt_Some _ _ _ Hu) as Hult.
  split; [exact (renderProjects_shows this w f u xs ps Hf Hu Hid Hel Ha Hps) |].
  split.
  - rewrite (renderProjects_shows this shown f
               {| ul_id := ProjectList.listId (type f); children := map item ps |} xs ps).
    + f_equal. subst shown. destruct w; unfold set_document; cbn.
      now rewrite list_insert_insert_eq.
    + subst shown. now destruct w.
    + subst shown. destruct w; cbn in *. now apply list_lookup_insert_eq.
    + reflexivity.
    + subst shown. rewrite (getElementById_insert _ _ _ u); auto.
    + subst shown. now destruct w.
    + subst shown. unfold resolves in *. now destruct w.
  - intros w0 Hf0 Hnone. unfold ProjectList.renderProjects, bind, fields_of, get.
    now rewrite Hf0, Hnone.
Qed.

Lemma renderProjects_replaces_witness :
  let shown := set_document (fun doc =>
                 <[0%nat := {| ul_id := ProjectList.listId active;
                              children := map item
                                [ Project.new (js "0.1") (js "Plant") (js "Plant a tree")
                                    (Number.of_Z 1) Active;
                                  Project.new (js "0.2") (js "Paint")
                                    (js "Paint the fence") (Number.of_Z 2) Finished ]
                           |}]> doc) stale_world in
  ProjectList.renderProjects 0%nat stale_world = (Normal tt, shown)
  /\ ProjectList.renderProjects 0%nat shown = (Normal tt, shown)
  /\ (forall w0 : World,
        lists w0 !! 0%nat = Some {| type := active; assignedProjects := 2%nat; ul := 0%nat |} ->
        getElementById (ProjectList.listId active) w0 = None ->
        ProjectList.renderProjects 0%nat w0 = (Throw, w0)).
Proof.
  assert (Hres : resolves stale_world [0%nat; 1%nat]
                   [ Project.new (js "0.1") (js "Plant") (js "Plant a tree")
                       (Number.of_Z 1) Active;
                     Project.new (js "0.2") (js "Paint") (js "Paint the fence")
                       (Number.of_Z 2) Finished ])
    by (repeat constructor).
  exact (renderProjects_replaces 0%nat stale_world
           {| type := active; assignedProjects := 2%nat; ul := 0%nat |}
           {| ul_id := ProjectList.listId active; children := [TextLi (js "old")] |}
           [0%nat; 1%nat] _ eq_refl eq_refl eq_refl eq_refl eq_refl Hres).
Defined.

End Rendering.

(** * A listener that throws *)

Section Faults.

Implicit Types (w : World) (l : Listener).





End Faults.

(** * The lists of src/app.ts *)

Section LegacyLists.

Implicit Types (w : World) (f : ProjectListFields) (u : UlElement).

Lemma set_children_found el g w u :
  document w !! el = Some u ->
  set_children el g w
  = (Normal tt,
     set_document (fun doc =>
       <[el := {| ul_id := ul_id u; children := g (children u) |}]> doc) w).
Proof.
  intros Hu. unfold set_children, modify. f_equal.
  destruct w; unfold set_document; cbn in *. now rewrite Hu.
Qed.

(** The loop of [renderProjects] in src/app.ts: one text item per
    project, after what the list holds already. *)
Lemma legacy_items_appended (xs : list ref) (ps : list Project.t) el :
  forall w u,
    resolves w xs ps ->
    document w !! el = Some u ->
    for_of xs (fun prjItem =>
      p <- project_of prjItem ;;
      set_children el (fun lis => lis ++ [TextLi (Project.title p)])) w
    = (Normal tt,
       set_document (fun doc =>
         <[el := {| ul_id := ul_id u;
                    children := children u ++ map text_item ps |}]> doc) w).
Proof.
  revert ps. induction xs as [|r xs IH]; intros ps w u H Hu;
    apply Forall2_length in H as Hlen; destruct ps as [|p ps]; try discriminate.
  - cbn. rewrite app_nil_r. unfold ret. f_equal.
    destruct w, u; unfold set_document; cbn in *. now rewrite list_insert_id.
  - apply Forall2_cons in H as [Hr H].
    cbn [for_of]. unfold bind at 1. unfold bind at 1. unfold project_of at 1.
    rewrite Hr. rewrite (set_children_found _ _ _ _ Hu).
    set (u1 := {| ul_id := ul_id u; children := children u ++ [TextLi (Project.title p)] |}).
    pose proof (lookup_lt_Some _ _ _ Hu) as Hlt.
    rewrite (IH ps (set_document (fun doc => <[el := u1]> doc) w) u1).
    + f_equal. destruct w; unfold set_document; cbn in *.
      rewrite list_insert_insert_eq, <- app_assoc. reflexivity.
    + unfold resolves in *. destruct w; exact H.
    + destruct w; cbn in *. now apply list_lookup_insert_eq.
Qed.

Lemma legacy_renderProjects_shows (this : nat) w f el u (xs : list ref)
    (ps : list Project.t) :
  lists w !! this = Some f ->
  getElementById (ProjectList.listId (type f)) w = Some el ->
  document w !! el = Some u ->
  store w !! assignedProjects f = Some (Array xs) ->
  resolves w xs ps ->
  Legacy.renderProjects this w
  = (Normal tt,
     set_document (fun doc =>
       <[el := {| ul_id := ul_id u;
                  children := children u ++ map text_item ps |}]> doc) w).
Proof.
  intros Hf Hel Hu Ha Hps. unfold Legacy.renderProjects.
  unfold bind at 1. unfold fields_of at 1. rewrite Hf.
  unfold bind at 1. unfold get at 1.
  unfold bind at 1. unfold items_of at 1. rewrite Ha, Hel.
  exact (legacy_items_appended xs ps el w u Hps Hu).
Qed.

(** [renderProjects] of src/app.ts adds to what its list shows: one
    item with the title of each assigned project, whatever its status, after
    the items that are there; so rendering a second time shows every project
    twice. *)
Theorem legacy_renderProjects_appends (this : nat) w f el u (xs : list ref)
    (ps : list Project.t) :
  lists w !! this = Some f ->
  getElementById (ProjectList.listId (type f)) w = Some el ->
  document w !! el = Some u ->
  store w !! assignedProjects f = Some (Array xs) ->
  resolves w xs ps ->
  let titles := map text_item ps in
  let once := set_document (fun doc =>
                <[el := {| ul_id := ul_id u; children := children u ++ titles |}]> doc) w in
  let twice := set_document (fun doc =>
                 <[el := {| ul_id := ul_id u;
                            children := (children u ++ titles) ++ titles |}]> doc) w in
  Legacy.renderProjects this w = (Normal tt, once)
  /\ Legacy.renderProjects this once = (Normal tt, twice).
Proof.
  intros Hf Hel Hu Ha Hps titles once twice.
  pose proof (lookup_lt_Some _ _ _ Hu) as Hlt.
  split; [exact (legacy_renderProjects_shows this w f el u xs ps Hf Hel Hu Ha Hps) |].
  rewrite (legacy_renderProjects_shows this once f el
             {| ul_id := ul_id u; children := children u ++ titles |} xs ps).
  - f_equal. subst once twice. destruct w; unfold set_document; cbn.
    now rewrite list_insert_insert_eq.
  - subst once. now destruct w.
  - subst once. rewrite (getElementById_insert _ _ _ u); auto.
  - subst once. destruct w; cbn in *. now apply list_lookup_insert_eq.
  - subst once. now destruct w.
  - subst once. unfold resolves in *. now destruct w.
Qed.

Lemma legacy_renderProjects_appends_witness :
  let titles := [TextLi (js "Plant"); TextLi (js "Paint")] in
  let once := set_document (fun doc =>
                <[0%nat := {| ul_id := ProjectList.listId active;
                             children := [TextLi (js "old")] ++ titles |}]> doc)
                stale_world in
  let twice := set_document (fun doc =>
                 <[0%nat := {| ul_id := ProjectList.listId active;
                              children := ([TextLi (js "old")] ++ titles) ++ titles |}]> doc)
                 stale_world in
  Legacy.renderProjects 0%nat stale_world = (Normal tt, once)
  /\ Legacy.renderProjects 0%nat once = (Normal tt, twice).
Proof.
  assert (Hres : resolves stale_world [0%nat; 1%nat]
                   [ Project.new (js "0.1") (js "Plant") (js "Plant a tree")
                       (Number.of_Z 1) Active;
                     Project.new (js "0.2") (js "Paint") (js "Paint the fence")
                       (Number.of_Z 2) Finished ])
    by (repeat constructor).
  exact (legacy_renderProjects_appends 0%nat stale_world
           {| type := active; assignedProjects := 2%nat; ul := 0%nat |} 0%nat
           {| ul_id := ProjectList.listId active; children := [TextLi (js "old")] |}
           [0%nat; 1%nat] _ eq_refl eq_refl eq_refl eq_refl Hres).
Defined.

End LegacyLists.
